(** * getEpgs.py: the streaming EPG merge-and-filter pipeline

    A shallow embedding of [src/getEpgs.py] and the properties its
    specification states about it.

    Conventions of the embedding.
    - A Python [str] is a [string], a character being a code point below
      256, wherever the program uses a text as a key, an attribute or a
      line; for [fix_xml_issues], which is applied to any text, a [str] is
      the list of its Unicode code points ([Text]).
    - An attribute that may be absent ([elem.get(...)] returning [None]) is
      an [option string].
    - A naive [datetime] is the number of microseconds since
      0001-01-01T00:00:00, an integer between 0 and [datetime_max]
      (9999-12-31T23:59:59.999999); [timedelta(days=n)] is
      [n * 86400000000].  Comparison of naive datetimes is comparison of
      these integers.  [timedelta(days=n)] raises [OverflowError] when [n]
      exceeds 999999999 in magnitude, and adding or subtracting a timedelta
      raises it when the result is not a datetime; the exception leaves the
      function that computes the cut-off and the loop around it.
    - [datetime.now()] reads a clock: [clock k] is the value returned by the
      k-th call of the run, and the number of calls made so far is threaded
      through the functions that read it.
    - [datetime.strptime], [requests.get], [ET.iterparse] and [ET.tostring]
      are library code.  The engine is parametrised by [strptime]; a model
      of it for the one format the program uses is given in [Strptime] and
      is used to evaluate the engine on concrete inputs.  What [iterparse]
      yields is an input of the model (a list of end events, possibly cut
      short by an error), and a serialised element is kept symbolic in the
      output. *)

From Stdlib Require Import ZArith Ascii String List Bool Lia.
From stdpp Require Import base gmap sets list strings.

Local Open Scope Z_scope.

(** ** Text primitives (Python [str] operations the program uses) *)

Module Str.

Definition code (c : ascii) : Z := Z.of_nat (nat_of_ascii c).

Definition between (lo hi : Z) (c : ascii) : bool :=
  (lo <=? code c) && (code c <=? hi).

(** [s[:n]] *)
Fixpoint slice_to (n : nat) (s : string) : string :=
  match n, s with
  | S n', String c s' => String c (slice_to n' s')
  | _, _ => EmptyString
  end.

(** [s.startswith(p)] *)
Fixpoint startswith (p s : string) : bool :=
  match p, s with
  | EmptyString, _ => true
  | String a p', String b s' => Ascii.eqb a b && startswith p' s'
  | String _ _, EmptyString => false
  end.

(** [s.endswith(p)] *)
Fixpoint endswith (p s : string) : bool :=
  match s with
  | EmptyString => String.eqb p EmptyString
  | String _ s' => String.eqb p s || endswith p s'
  end.

(** [sub in s] *)
Fixpoint contains (sub s : string) : bool :=
  startswith sub s ||
  match s with
  | EmptyString => false
  | String _ s' => contains sub s'
  end.

(** [c.lower()] on code points below 256: A-Z, and the Latin-1 capitals
    0xC0-0xDE other than the multiplication sign 0xD7. *)
Definition lower_char (c : ascii) : ascii :=
  if between 65 90 c || (between 192 222 c && negb (code c =? 215))
  then ascii_of_nat (nat_of_ascii c + 32)
  else c.

(** [s.lower()] *)
Fixpoint lower (s : string) : string :=
  match s with
  | EmptyString => EmptyString
  | String c s' => String (lower_char c) (lower s')
  end.

Fixpoint all (p : ascii -> bool) (s : string) : bool :=
  match s with
  | EmptyString => true
  | String c s' => p c && all p s'
  end.

(** Truthiness of a [str]: non-empty. *)
Definition truthy (s : string) : bool :=
  match s with EmptyString => false | String _ _ => true end.

(** [str(x)] inside an f-string, for a value that is a [str] or [None]. *)
Definition format (x : option string) : string :=
  match x with Some s => s | None => "None" end.

End Str.

(** ** The fragment of [re] the program uses

    Patterns are sequences of literals, character classes and starred
    character classes; matching is greedy with backtracking, as in [re]. *)

Module Re.

Inductive atom :=
| Lit (s : string)
| Any (cls : ascii -> bool)
| Many (cls : ascii -> bool).

Definition regex := list atom.

(** The rest of [s] after the prefix [p], when [s] starts with [p]. *)
Fixpoint strip_prefix (p s : string) : option string :=
  match p, s with
  | EmptyString, _ => Some s
  | String a p', String b s' =>
      if Ascii.eqb a b then strip_prefix p' s' else None
  | String _ _, EmptyString => None
  end.

(** Match [r] at the head of [s]: the rest of the input after the match. *)
Fixpoint match_here (r : regex) (s : string) : option string :=
  match r with
  | [] => Some s
  | Lit l :: r' =>
      match strip_prefix l s with
      | Some rest => match_here r' rest
      | None => None
      end
  | Any p :: r' =>
      match s with
      | String c s' => if p c then match_here r' s' else None
      | EmptyString => None
      end
  | Many p :: r' =>
      (fix many (s : string) : option string :=
         match s with
         | String c s' =>
             if p c then
               match many s' with
               | Some rest => Some rest
               | None => match_here r' s
               end
             else match_here r' s
         | EmptyString => match_here r' s
         end) s
  end.

(** [\s] on code points below 256: the ASCII white space 0x09-0x0D,
    0x1C-0x1F and 0x20, and NEL 0x85 and the no-break space 0xA0. *)
Definition space (c : ascii) : bool :=
  Str.between 9 13 c || Str.between 28 32 c
  || (Str.code c =? 133) || (Str.code c =? 160).

End Re.

(** ** A model of [datetime.strptime(_, '%Y%m%d%H%M%S')]

    CPython's [_strptime] turns the format into the regular expression
    [(\d\d\d\d)(1[0-2]|0[1-9]|[1-9])(3[0-1]|[1-2]\d|0[1-9]|[1-9]| [1-9])
     (2[0-3]|[0-1]\d|\d)([0-5]\d|\d)(6[0-1]|[0-5]\d|\d)],
    takes the first match in backtracking order at the start of the input,
    fails when the match does not reach the end of the input, and then builds
    a [datetime], which fails on a date that does not exist and on a second
    above 59. *)

Module Strptime.

(** One alternative of a group: a sequence of character classes. *)
Definition alt := list (ascii -> bool).

Definition dig : ascii -> bool := Str.between 48 57.
Definition rng (lo hi : ascii) : ascii -> bool :=
  Str.between (Str.code lo) (Str.code hi).
Definition chr (x : ascii) : ascii -> bool := Ascii.eqb x.

Definition re_Y : list alt := [[dig; dig; dig; dig]].
Definition re_m : list alt :=
  [[chr "1"; rng "0" "2"]; [chr "0"; rng "1" "9"]; [rng "1" "9"]].
Definition re_d : list alt :=
  [[chr "3"; rng "0" "1"]; [rng "1" "2"; dig]; [chr "0"; rng "1" "9"];
   [rng "1" "9"]; [chr " "; rng "1" "9"]].
Definition re_H : list alt :=
  [[chr "2"; rng "0" "3"]; [rng "0" "1"; dig]; [dig]].
Definition re_M : list alt := [[rng "0" "5"; dig]; [dig]].
Definition re_S : list alt :=
  [[chr "6"; rng "0" "1"]; [rng "0" "5"; dig]; [dig]].

Definition format_regex : list (list alt) :=
  [re_Y; re_m; re_d; re_H; re_M; re_S].

(** Match one alternative at the head of [s]: the text captured and the
    rest of the input. *)
Fixpoint match_alt (a : alt) (s : string) : option (string * string) :=
  match a with
  | [] => Some (EmptyString, s)
  | p :: a' =>
      match s with
      | String c s' =>
          if p c then
            match match_alt a' s' with
            | Some (cap, rest) => Some (String c cap, rest)
            | None => None
            end
          else None
      | EmptyString => None
      end
  end.

(** Match a sequence of groups, trying the alternatives of each group in
    order and backtracking into earlier groups when a later one fails. *)
Fixpoint match_groups (gs : list (list alt)) (s : string)
  : option (list string * string) :=
  match gs with
  | [] => Some ([], s)
  | g :: gs' =>
      (fix try (alts : list alt) : option (list string * string) :=
         match alts with
         | [] => None
         | a :: alts' =>
             match match_alt a s with
             | Some (cap, rest) =>
                 match match_groups gs' rest with
                 | Some (caps, r) => Some (cap :: caps, r)
                 | None => try alts'
                 end
             | None => try alts'
             end
         end) g
  end.

(** [int(cap)] on a capture of the expression above: decimal digits,
    possibly after a blank. *)
Fixpoint int_of_acc (acc : Z) (s : string) : Z :=
  match s with
  | EmptyString => acc
  | String c s' =>
      if dig c then int_of_acc (10 * acc + (Str.code c - 48)) s'
      else int_of_acc acc s'
  end.
Definition int_of : string -> Z := int_of_acc 0.

Definition is_leap (y : Z) : bool :=
  (y mod 4 =? 0) && (negb (y mod 100 =? 0) || (y mod 400 =? 0)).

Definition days_in_month (y m : Z) : Z :=
  if m =? 2 then (if is_leap y then 29 else 28)
  else if (m =? 4) || (m =? 6) || (m =? 9) || (m =? 11) then 30
  else 31.

Definition days_before_year (y : Z) : Z :=
  let y1 := y - 1 in y1 * 365 + y1 / 4 - y1 / 100 + y1 / 400.

Fixpoint days_before_month_nat (y : Z) (m : nat) : Z :=
  match m with
  | O => 0
  | S m' => days_before_month_nat y m' + days_in_month y (Z.of_nat (S m'))
  end.
Definition days_before_month (y m : Z) : Z :=
  days_before_month_nat y (Z.to_nat (m - 1)).

Definition us_per_second : Z := 1000000.
Definition us_per_day : Z := 86400 * us_per_second.

(** [datetime(y, m, d, H, M, S)] as microseconds since 0001-01-01, or
    [None] where the constructor raises [ValueError]. *)
Definition make_datetime (y m d hh mm ss : Z) : option Z :=
  if (1 <=? y) && (y <=? 9999) && (1 <=? m) && (m <=? 12)
     && (1 <=? d) && (d <=? days_in_month y m)
     && (0 <=? hh) && (hh <=? 23) && (0 <=? mm) && (mm <=? 59)
     && (0 <=? ss) && (ss <=? 59)
  then
    let ordinal := days_before_year y + days_before_month y m + d in
    Some ((ordinal - 1) * us_per_day
          + (hh * 3600 + mm * 60 + ss) * us_per_second)
  else None.

(** The result is [None] where [strptime] raises. *)
Definition strptime (data_string : string) : option Z :=
  match match_groups format_regex data_string with
  | Some ([year; month; day; hour; minute; second], EmptyString) =>
      make_datetime (int_of year) (int_of month) (int_of day)
                    (int_of hour) (int_of minute) (int_of second)
  | _ => None
  end.

End Strptime.

(** ** Module-level configuration *)

Record config := {
  days_future : Z;
  days_past : Z;
  skip_dummy_programs : bool;
  max_retries : nat;
  retry_delay : Z
}.

(** The values assigned at the top of the script. *)
Definition script_config : config := {|
  days_future := 0;
  days_past := 1;
  skip_dummy_programs := false;
  max_retries := 5;
  retry_delay := 5
|}.

(** ** Datetime arithmetic *)

(** The result of a computation that may raise [OverflowError]. *)
Inductive outcome (A : Type) :=
| Value (a : A)
| OverflowError.
Arguments Value {A} a.
Arguments OverflowError {A}.

(** [datetime.max], and the integers that are datetimes. *)
Definition datetime_max : Z := 3652059 * Strptime.us_per_day - 1.
Definition is_datetime (t : Z) : Prop := 0 <= t <= datetime_max.
Definition in_datetime_range (t : Z) : bool :=
  (0 <=? t) && (t <=? datetime_max).

(** [timedelta(days=n)] *)
Definition timedelta_days (n : Z) : outcome Z :=
  if Z.abs n <=? 999999999 then Value (n * Strptime.us_per_day)
  else OverflowError.

(** [t + delta] and [t - delta] for a datetime [t] and a timedelta. *)
Definition datetime_add (t delta : Z) : outcome Z :=
  if in_datetime_range (t + delta) then Value (t + delta) else OverflowError.
Definition datetime_sub (t delta : Z) : outcome Z :=
  if in_datetime_range (t - delta) then Value (t - delta) else OverflowError.

(** ** The time-window and dummy filters *)

Section Filters.

Context (cfg : config).
Context (strptime : string -> option Z).
Context (clock : nat -> Z).

(** [datetime.now()]: the reading, and the number of readings taken. *)
Definition datetime_now (k : nat) : Z * nat := (clock k, S k).

Definition parse_xmltv_time (time_str : option string) : option Z :=
  match time_str with
  | None => None
  | Some s =>
      if negb (Str.truthy s) then None
      else strptime (Str.slice_to 14 s)
  end.

(** [datetime.now() + timedelta(days=days_limit)]: the clock is read, then
    the timedelta is built, then the two are added. *)
Definition future_cutoff (days_limit : Z) (k : nat) : outcome Z * nat :=
  let '(now, k') := datetime_now k in
  match timedelta_days days_limit with
  | Value delta => (datetime_add now delta, k')
  | OverflowError => (OverflowError, k')
  end.

(** [datetime.now() - timedelta(days=days_limit)] *)
Definition past_cutoff (days_limit : Z) (k : nat) : outcome Z * nat :=
  let '(now, k') := datetime_now k in
  match timedelta_days days_limit with
  | Value delta => (datetime_sub now delta, k')
  | OverflowError => (OverflowError, k')
  end.

(** The answer of the filter, or the exception that leaves it, and the
    number of clock readings taken. *)
Definition is_programme_too_far_future
    (start_time_str : option string) (days_limit : Z) (k : nat)
  : outcome bool * nat :=
  if (days_limit =? 0) || (days_limit <=? 0) then (Value false, k)
  else
    match parse_xmltv_time start_time_str with
    | None => (Value false, k)
    | Some start_time =>
        match future_cutoff days_limit k with
        | (Value cutoff, k') => (Value (cutoff <? start_time), k')
        | (OverflowError, k') => (OverflowError, k')
        end
    end.

Definition is_programme_too_far_past
    (stop_time_str : option string) (days_limit : Z) (k : nat)
  : outcome bool * nat :=
  if (days_limit =? 0) || (days_limit <=? 0) then (Value false, k)
  else
    match parse_xmltv_time stop_time_str with
    | None => (Value false, k)
    | Some stop_time =>
        match past_cutoff days_limit k with
        | (Value cutoff, k') => (Value (stop_time <? cutoff), k')
        | (OverflowError, k') => (OverflowError, k')
        end
    end.

Definition is_dummy_programme (tvg_id : option string) : bool :=
  if negb (skip_dummy_programs cfg) then false
  else
    match tvg_id with
    | None => false
    | Some s =>
        if negb (Str.truthy s) then false
        else Str.contains "dummy" (Str.lower s)
    end.

End Filters.

(** ** Elements, parser events and the output sink *)

(** An element as [iterparse] hands it over at its end event: tag,
    attributes and the rest of its content (text and sub-elements), which
    the program passes through without looking at it.  XMLTV nests no
    channel or programme element inside another, and the events of a
    document are taken to be independent of one another. *)
Record element := {
  tag : string;
  attrib : list (string * string);
  payload : string
}.

(** [elem.get(key)] *)
Fixpoint get_attr (attrs : list (string * string)) (key : string)
  : option string :=
  match attrs with
  | [] => None
  | (k, v) :: attrs' => if String.eqb k key then Some v else get_attr attrs' key
  end.

Definition get (elem : element) (key : string) : option string :=
  get_attr (attrib elem) key.

(** One step of the iteration over [ET.iterparse(file_obj, events=('end',))]:
    an end event, or the point where the iteration raises.  [SyntaxFault] is
    [ET.ParseError]; [ReadFault] is any other exception raised while the
    stream is read (a truncated gzip member, a dropped connection).  Whatever
    follows a fault in the list is never looked at. *)
Inductive parse_item :=
| EndEvent (elem : element)
| SyntaxFault
| ReadFault.

(** What has been written to the output handle.  [Serialized e] stands for
    the line ['  ' + ET.tostring(e, encoding='unicode') + '\n']. *)
Inductive chunk :=
| Text (s : string)
| Serialized (elem : element).

Definition nl : string := String (ascii_of_nat 10) EmptyString.
Definition dquote : string := String (ascii_of_nat 34) EmptyString.

(** ** Shared state of a run and the counters of one source *)

(** The [stats] dictionary: its seven keys are fixed when it is created. *)
Record stats := mk_stats {
  total_channels_in_sources : nat;
  total_programmes_in_sources : nat;
  channels_filtered_by_tvg_id : nat;
  programmes_filtered_by_tvg_id : nat;
  programmes_filtered_by_future : nat;
  programmes_filtered_by_past : nat;
  programmes_filtered_by_dummy : nat
}.

(** The objects every source shares: the two sets, the statistics, the
    output handle, and the number of clock readings taken. *)
Record shared := mk_shared {
  seen_channels : gset (option string);
  seen_programmes : gset string;
  run_stats : stats;
  output : list chunk;
  ticks : nat
}.

(** The local counters of [stream_parse_epg]. *)
Record counters := mk_counters {
  channels_added : nat;
  channels_filtered : nat;
  programmes_added : nat;
  programmes_filtered_tvg : nat;
  programmes_skipped_future : nat;
  programmes_skipped_past : nat;
  programmes_skipped_dummy : nat;
  prog_count : nat
}.

Definition counters_zero : counters := mk_counters 0 0 0 0 0 0 0 0.
Definition stats_zero : stats := mk_stats 0 0 0 0 0 0 0.

Definition incr_total_channels (s : stats) : stats :=
  mk_stats (total_channels_in_sources s + 1) (total_programmes_in_sources s)
    (channels_filtered_by_tvg_id s) (programmes_filtered_by_tvg_id s)
    (programmes_filtered_by_future s) (programmes_filtered_by_past s)
    (programmes_filtered_by_dummy s).

Definition incr_total_programmes (s : stats) : stats :=
  mk_stats (total_channels_in_sources s) (total_programmes_in_sources s + 1)
    (channels_filtered_by_tvg_id s) (programmes_filtered_by_tvg_id s)
    (programmes_filtered_by_future s) (programmes_filtered_by_past s)
    (programmes_filtered_by_dummy s).

(** The five [stats[...] += ...] lines after the loop. *)
Definition add_counters (s : stats) (c : counters) : stats :=
  mk_stats (total_channels_in_sources s) (total_programmes_in_sources s)
    (channels_filtered_by_tvg_id s + channels_filtered c)
    (programmes_filtered_by_tvg_id s + programmes_filtered_tvg c)
    (programmes_filtered_by_future s + programmes_skipped_future c)
    (programmes_filtered_by_past s + programmes_skipped_past c)
    (programmes_filtered_by_dummy s + programmes_skipped_dummy c).

Definition with_stats (f : stats -> stats) (sh : shared) : shared :=
  mk_shared (seen_channels sh) (seen_programmes sh) (f (run_stats sh))
    (output sh) (ticks sh).

Definition with_ticks (k : nat) (sh : shared) : shared :=
  mk_shared (seen_channels sh) (seen_programmes sh) (run_stats sh)
    (output sh) k.

(** [output_handle.write(...)] *)
Definition write (c : chunk) (sh : shared) : shared :=
  mk_shared (seen_channels sh) (seen_programmes sh) (run_stats sh)
    (output sh ++ [c]) (ticks sh).

(** [seen_channels.add(tvg_id)] *)
Definition add_seen_channel (tvg_id : option string) (sh : shared) : shared :=
  mk_shared ({[ tvg_id ]} ∪ seen_channels sh) (seen_programmes sh)
    (run_stats sh) (output sh) (ticks sh).

(** [seen_programmes.add(prog_key)] *)
Definition add_seen_programme (prog_key : string) (sh : shared) : shared :=
  mk_shared (seen_channels sh) ({[ prog_key ]} ∪ seen_programmes sh)
    (run_stats sh) (output sh) (ticks sh).

Definition incr_channels_added (c : counters) : counters :=
  mk_counters (channels_added c + 1) (channels_filtered c)
    (programmes_added c) (programmes_filtered_tvg c)
    (programmes_skipped_future c) (programmes_skipped_past c)
    (programmes_skipped_dummy c) (prog_count c).

Definition incr_channels_filtered (c : counters) : counters :=
  mk_counters (channels_added c) (channels_filtered c + 1)
    (programmes_added c) (programmes_filtered_tvg c)
    (programmes_skipped_future c) (programmes_skipped_past c)
    (programmes_skipped_dummy c) (prog_count c).

Definition incr_programmes_added (c : counters) : counters :=
  mk_counters (channels_added c) (channels_filtered c)
    (programmes_added c + 1) (programmes_filtered_tvg c)
    (programmes_skipped_future c) (programmes_skipped_past c)
    (programmes_skipped_dummy c) (prog_count c).

Definition incr_programmes_filtered_tvg (c : counters) : counters :=
  mk_counters (channels_added c) (channels_filtered c)
    (programmes_added c) (programmes_filtered_tvg c + 1)
    (programmes_skipped_future c) (programmes_skipped_past c)
    (programmes_skipped_dummy c) (prog_count c).

Definition incr_programmes_skipped_future (c : counters) : counters :=
  mk_counters (channels_added c) (channels_filtered c)
    (programmes_added c) (programmes_filtered_tvg c)
    (programmes_skipped_future c + 1) (programmes_skipped_past c)
    (programmes_skipped_dummy c) (prog_count c).

Definition incr_programmes_skipped_past (c : counters) : counters :=
  mk_counters (channels_added c) (channels_filtered c)
    (programmes_added c) (programmes_filtered_tvg c)
    (programmes_skipped_future c) (programmes_skipped_past c + 1)
    (programmes_skipped_dummy c) (prog_count c).

Definition incr_programmes_skipped_dummy (c : counters) : counters :=
  mk_counters (channels_added c) (channels_filtered c)
    (programmes_added c) (programmes_filtered_tvg c)
    (programmes_skipped_future c) (programmes_skipped_past c)
    (programmes_skipped_dummy c + 1) (prog_count c).

Definition incr_prog_count (c : counters) : counters :=
  mk_counters (channels_added c) (channels_filtered c)
    (programmes_added c) (programmes_filtered_tvg c)
    (programmes_skipped_future c) (programmes_skipped_past c)
    (programmes_skipped_dummy c) (prog_count c + 1).

(** ** The network *)

(** A response as the program uses it: its status code, and what
    [iterparse] yields when it reads [response.raw] directly and when it
    reads it through [gzip.GzipFile]. *)
Record response := {
  status_code : Z;
  xml_events : list parse_item;
  gunzip_events : list parse_item
}.

(** The outcome of one [requests.get]. *)
Inductive attempt_result :=
| Timeout
| ConnectionError
| RequestException
| Responded (r : response).

(** What the fetcher does to the outside world, in order. *)
Inductive effect :=
| HttpGet (attempt : nat)
| CloseResponse
| Sleep (seconds : Z).

(** A source: its URL and what the network answers to the n-th request for
    it (n counted from 1). *)
Record source := {
  url : string;
  network : nat -> attempt_result
}.

(** [prog_key = f"{tvg_id}_{start_time}_{stop_time}"] *)
Definition prog_key (tvg_id start_time stop_time : option string) : string :=
  Str.format tvg_id +:+ "_" +:+ Str.format start_time +:+ "_"
  +:+ Str.format stop_time.

(** [valid_tvg_ids and tvg_id not in valid_tvg_ids] *)
Definition not_in_valid (valid_tvg_ids : gset string) (tvg_id : option string)
  : bool :=
  bool_decide (valid_tvg_ids ≠ ∅) &&
  match tvg_id with
  | Some s => bool_decide (s ∉ valid_tvg_ids)
  | None => true
  end.

(** How the [for] loop over the parser ends: the stream is exhausted, an
    [ET.ParseError] is caught by the [except] clause, or another exception
    leaves the function. *)
Inductive loop_exit := Exhausted | ParseErrorCaught | Propagated.

(** The result of a call: it returns, or an exception leaves it; either way
    the shared objects are as the call left them. *)
Inductive call_result :=
| Returned (sh : shared)
| Raised (sh : shared).

Definition result_state (r : call_result) : shared :=
  match r with Returned sh | Raised sh => sh end.

(** One turn of the loop body: it completes, or an exception leaves it;
    either way with the shared objects and the counters as they then are. *)
Inductive step :=
| Continue (st : shared * counters)
| Raise (st : shared * counters).

Definition state_of (s : step) : shared * counters :=
  match s with Continue st | Raise st => st end.

Section Engine.

Context (cfg : config).
Context (strptime : string -> option Z).
Context (clock : nat -> Z).

(** *** [fetch_with_retry] *)

(** The body of the [for attempt in range(1, max_retries + 1)] loop, with
    [remaining] iterations to go. *)
Fixpoint fetch_loop (net : nat -> attempt_result) (remaining attempt : nat)
  : option response * list effect :=
  match remaining with
  | O => (None, [])
  | S remaining' =>
      let retry (done : list effect) :=
        let wait :=
          if (attempt <? max_retries cfg)%nat
          then [Sleep (retry_delay cfg)] else [] in
        let '(r, later) := fetch_loop net remaining' (S attempt) in
        (r, done ++ wait ++ later) in
      match net attempt with
      | Responded r =>
          if status_code r =? 200 then (Some r, [HttpGet attempt])
          else retry [HttpGet attempt; CloseResponse]
      | _ => retry [HttpGet attempt]
      end
  end.

Definition fetch_with_retry (net : nat -> attempt_result)
  : option response * list effect :=
  fetch_loop net (max_retries cfg) 1.

(** *** [stream_parse_epg] *)

(** The [channel] branch of the loop body. *)
Definition on_channel (valid_tvg_ids : gset string) (elem : element)
    (st : shared * counters) : shared * counters :=
  let '(sh, c) := st in
  let tvg_id := get elem "id" in
  let sh := with_stats incr_total_channels sh in
  if not_in_valid valid_tvg_ids tvg_id then
    (sh, incr_channels_filtered c)
  else if bool_decide (tvg_id ∉ seen_channels sh) then
    (write (Serialized elem) (add_seen_channel tvg_id sh),
     incr_channels_added c)
  else (sh, c).

(** The [programme] branch of the loop body.  An [OverflowError] raised
    by a window filter leaves it with the total already counted. *)
Definition on_programme (valid_tvg_ids : gset string) (elem : element)
    (st : shared * counters) : step :=
  let '(sh, c) := st in
  let c := incr_prog_count c in
  let tvg_id := get elem "channel" in
  let start_time := get elem "start" in
  let stop_time := get elem "stop" in
  let sh := with_stats incr_total_programmes sh in
  if not_in_valid valid_tvg_ids tvg_id then
    Continue (sh, incr_programmes_filtered_tvg c)
  else if is_dummy_programme cfg tvg_id then
    Continue (sh, incr_programmes_skipped_dummy c)
  else
    match is_programme_too_far_future strptime clock start_time
            (days_future cfg) (ticks sh) with
    | (OverflowError, k1) => Raise (with_ticks k1 sh, c)
    | (Value too_far_future, k1) =>
        let sh := with_ticks k1 sh in
        if too_far_future then
          Continue (sh, incr_programmes_skipped_future c)
        else
          match is_programme_too_far_past strptime clock stop_time
                  (days_past cfg) (ticks sh) with
          | (OverflowError, k2) => Raise (with_ticks k2 sh, c)
          | (Value too_far_past, k2) =>
              let sh := with_ticks k2 sh in
              if too_far_past then
                Continue (sh, incr_programmes_skipped_past c)
              else
                let key := prog_key tvg_id start_time stop_time in
                if bool_decide (key ∉ seen_programmes sh) then
                  Continue
                    (write (Serialized elem) (add_seen_programme key sh),
                     incr_programmes_added c)
                else Continue (sh, c)
          end
    end.

(** The loop body: elements with any other tag are left alone. *)
Definition on_end_event (valid_tvg_ids : gset string) (elem : element)
    (st : shared * counters) : step :=
  if String.eqb (tag elem) "channel"
  then Continue (on_channel valid_tvg_ids elem st)
  else if String.eqb (tag elem) "programme"
  then on_programme valid_tvg_ids elem st
  else Continue st.

(** The loop ends with the stream, at a fault of the stream, or at an
    exception raised by the body. *)
Fixpoint iterate (valid_tvg_ids : gset string) (items : list parse_item)
    (st : shared * counters) : loop_exit * (shared * counters) :=
  match items with
  | [] => (Exhausted, st)
  | EndEvent elem :: items' =>
      match on_end_event valid_tvg_ids elem st with
      | Continue st' => iterate valid_tvg_ids items' st'
      | Raise st' => (Propagated, st')
      end
  | SyntaxFault :: _ => (ParseErrorCaught, st)
  | ReadFault :: _ => (Propagated, st)
  end.

Definition stream_parse_epg (items : list parse_item)
    (valid_tvg_ids : gset string) (sh : shared) : call_result :=
  match iterate valid_tvg_ids items (sh, counters_zero) with
  | (Propagated, (sh', _)) => Raised sh'
  | (_, (sh', c)) => Returned (with_stats (fun s => add_counters s c) sh')
  end.

(** *** [process_epg_source] *)

Definition process_epg_source (src : source) (valid_tvg_ids : gset string)
    (sh : shared) : shared :=
  match fst (fetch_with_retry (network src)) with
  | None => sh
  | Some resp =>
      let items :=
        if Str.endswith ".gz" (url src) then gunzip_events resp
        else xml_events resp in
      match stream_parse_epg items valid_tvg_ids sh with
      | Returned sh' => sh'
      | Raised sh' => sh'
      end
  end.

(** *** [filter_and_build_epg] *)

Definition xml_declaration : string :=
  "<?xml version=" +:+ dquote +:+ "1.0" +:+ dquote +:+ " encoding="
  +:+ dquote +:+ "utf-8" +:+ dquote +:+ "?>" +:+ nl.

Definition write_xml_header (sh : shared) : shared :=
  write (Text ("<tv>" +:+ nl)) (write (Text xml_declaration) sh).

Definition write_xml_footer (sh : shared) : shared :=
  write (Text ("</tv>" +:+ nl)) sh.

(** The [for url in epg_urls] loop. *)
Definition process_all (epg_urls : list source) (valid_tvg_ids : gset string)
    (sh : shared) : shared :=
  fold_left (fun sh src => process_epg_source src valid_tvg_ids sh)
            epg_urls sh.

Definition initial_shared : shared := mk_shared ∅ ∅ stats_zero [] 0.

(** [valid_tvg_ids] is the set [get_valid_tvg_ids] returned. *)
Definition filter_and_build_epg (epg_urls : list source)
    (valid_tvg_ids : gset string) : shared :=
  write_xml_footer
    (process_all epg_urls valid_tvg_ids (write_xml_header initial_shared)).

End Engine.

(** ** Texts of arbitrary code points

    The operations of [str] and [re] that [fix_xml_issues] uses, on a text
    given as the list of its code points. *)

Module Text.

Definition text := list Z.

(** The text of a literal of the program. *)
Definition of_string (s : string) : text :=
  map Str.code (list_ascii_of_string s).

(** [s.startswith(p)] *)
Fixpoint startswith (p s : text) : bool :=
  match p, s with
  | [], _ => true
  | a :: p', b :: s' => (a =? b) && startswith p' s'
  | _ :: _, [] => false
  end.

(** [s.replace(old, new)] for a non-empty [old]: the occurrences of [old]
    are found from left to right and do not overlap.  [skip] counts the
    characters of an occurrence still to be passed over. *)
Fixpoint replace_from (old new : text) (skip : nat) (s : text) : text :=
  match s with
  | [] => []
  | c :: s' =>
      match skip with
      | S k => replace_from old new k s'
      | O =>
          if startswith old s
          then new ++ replace_from old new (length old - 1) s'
          else c :: replace_from old new 0 s'
      end
  end.

Definition replace (old new s : text) : text :=
  replace_from old new 0 s.

(** Patterns: sequences of literals, character classes and starred
    character classes; matching is greedy with backtracking. *)
Inductive atom :=
| Lit (s : text)
| Any (cls : Z -> bool)
| Many (cls : Z -> bool).

Definition regex := list atom.

(** The rest of [s] after the prefix [p], when [s] starts with [p]. *)
Fixpoint strip_prefix (p s : text) : option text :=
  match p, s with
  | [], _ => Some s
  | a :: p', b :: s' => if a =? b then strip_prefix p' s' else None
  | _ :: _, [] => None
  end.

(** Match [r] at the head of [s]: the rest of the input after the match. *)
Fixpoint match_here (r : regex) (s : text) : option text :=
  match r with
  | [] => Some s
  | Lit l :: r' =>
      match strip_prefix l s with
      | Some rest => match_here r' rest
      | None => None
      end
  | Any p :: r' =>
      match s with
      | c :: s' => if p c then match_here r' s' else None
      | [] => None
      end
  | Many p :: r' =>
      (fix many (s : text) : option text :=
         match s with
         | c :: s' =>
             if p c then
               match many s' with
               | Some rest => Some rest
               | None => match_here r' s
               end
             else match_here r' s
         | [] => match_here r' s
         end) s
  end.

(** [re.sub(r, repl, s)] for a replacement without group references:
    the matches are found from left to right and do not overlap.  [skip]
    counts the characters of a match still to be passed over. *)
Fixpoint sub_from (r : regex) (repl : text) (skip : nat) (s : text) : text :=
  match s with
  | [] =>
      match skip, match_here r [] with
      | O, Some _ => repl
      | _, _ => []
      end
  | c :: s' =>
      match skip with
      | S k => sub_from r repl k s'
      | O =>
          match match_here r s with
          | Some rest =>
              match (length s - length rest)%nat with
              | O => repl ++ c :: sub_from r repl 0 s'
              | S k => repl ++ sub_from r repl k s'
              end
          | None => c :: sub_from r repl 0 s'
          end
      end
  end.

Definition sub (r : regex) (repl s : text) : text :=
  sub_from r repl 0 s.

Definition between (lo hi c : Z) : bool := (lo <=? c) && (c <=? hi).

(** [\s] in a pattern over [str]: the white space of Unicode, which is
    0x09-0x0D, 0x1C-0x20, 0x85, 0xA0, 0x1680, 0x2000-0x200A, 0x2028, 0x2029,
    0x202F, 0x205F and 0x3000. *)
Definition space (c : Z) : bool :=
  between 0x09 0x0D c || between 0x1C 0x20 c
  || (c =? 0x85) || (c =? 0xA0) || (c =? 0x1680)
  || between 0x2000 0x200A c
  || (c =? 0x2028) || (c =? 0x2029) || (c =? 0x202F) || (c =? 0x205F)
  || (c =? 0x3000).

End Text.

(** ** [fix_xml_issues] *)

Definition amp_amp : Text.text := Text.of_string "&amp;amp;".
Definition amp : Text.text := Text.of_string "&amp;".
Definition close_programme : Text.text := Text.of_string "</programme>".
Definition open_programme : Text.text := Text.of_string "<programme".
Definition newline : Text.text := [0x0A].

(** The class [[^\x20-\x7E\n\r\t]] is the complement of [printable]. *)
Definition printable (c : Z) : bool :=
  Text.between 0x20 0x7E c || (c =? 0x0A) || (c =? 0x0D) || (c =? 0x09).
Definition not_printable (c : Z) : bool := negb (printable c).

Definition fix_xml_issues (xml_content : Text.text) : Text.text :=
  let xml_content := Text.replace amp_amp amp xml_content in
  let xml_content :=
    Text.sub [Text.Lit close_programme; Text.Many Text.space;
              Text.Lit open_programme]
             (close_programme ++ newline ++ open_programme) xml_content in
  let xml_content := Text.sub [Text.Any not_printable] [] xml_content in
  xml_content.

(** ** Concrete inputs used in examples *)

Definition elem_channel (id : string) : element :=
  {| tag := "channel"; attrib := [("id", id)]; payload := "" |}.

Definition elem_programme (ch start stop : string) : element :=
  {| tag := "programme";
     attrib := [("start", start); ("stop", stop); ("channel", ch)];
     payload := "" |}.

(** A source that answers 200 at once with the given document. *)
Definition plain_source (items : list parse_item) : source :=
  {| url := "http://example.org/epg.xml";
     network := fun _ => Responded
       {| status_code := 200; xml_events := items; gunzip_events := [] |} |}.

(** ** Vocabulary of the properties *)




(** The elements serialised into the output, in the order written. *)
Fixpoint written (out : list chunk) : list element :=
  match out with
  | [] => []
  | Serialized e :: out' => e :: written out'
  | Text _ :: out' => written out'
  end.

Definition is_channel (e : element) : bool := String.eqb (tag e) "channel".
Definition is_programme (e : element) : bool := String.eqb (tag e) "programme".

Definition written_channels (out : list chunk) : list element :=
  List.filter is_channel (written out).
Definition written_programmes (out : list chunk) : list element :=
  List.filter is_programme (written out).

Definition channel_id (e : element) : option string := get e "id".

Definition programme_triple (e : element)
  : option string * option string * option string :=
  (get e "channel", get e "start", get e "stop").

Definition programme_key (e : element) : string :=
  prog_key (get e "channel") (get e "start") (get e "stop").


(** The window filters in the words of the claim, for the value a timestamp
    parses to (if any), a window in days and a clock reading: the start lies
    beyond the reading plus the window; the stop lies before the reading
    minus the window.  A window of 0 or less, or a timestamp that does not
    parse, matches nothing. *)
Definition starts_beyond (parsed : option Z) (window now : Z) : bool :=
  match parsed with
  | Some start => (0 <? window) && (now + window * Strptime.us_per_day <? start)
  | None => false
  end.

Definition stops_before (parsed : option Z) (window now : Z) : bool :=
  match parsed with
  | Some stop => (0 <? window) && (stop <? now - window * Strptime.us_per_day)
  | None => false
  end.

(** A window filter reads the clock when its window is positive and the
    timestamp parses. *)
Definition reads_clock (parsed : option Z) (window : Z) : bool :=
  (0 <? window) && match parsed with Some _ => true | None => false end.

Definition after_reading (parsed : option Z) (window : Z) (k : nat) : nat :=
  if reads_clock parsed window then S k else k.

(** The cut-off of a filter that reads the clock is not a datetime. *)
Definition future_cutoff_overflows (parsed : option Z) (window now : Z)
  : bool :=
  reads_clock parsed window
  && (datetime_max <? now + window * Strptime.us_per_day).

Definition past_cutoff_overflows (parsed : option Z) (window now : Z)
  : bool :=
  reads_clock parsed window && (now - window * Strptime.us_per_day <? 0).



(** The elements a stream yields before it ends or faults. *)
Fixpoint elements_before_fault (items : list parse_item) : list element :=
  match items with
  | EndEvent e :: items' => e :: elements_before_fault items'
  | _ => []
  end.

(** The stream a response is parsed from. *)
Definition events_for (url : string) (resp : response) : list parse_item :=
  if Str.endswith ".gz" url then gunzip_events resp else xml_events resp.

(** The elements a source contributes to a run: those of the document
    fetched for it, none when the fetch fails. *)
Definition document_of (cfg : config) (src : source) : list element :=
  match fst (fetch_with_retry cfg (network src)) with
  | None => []
  | Some resp => elements_before_fault (events_for (url src) resp)
  end.




Definition tag_is_known (e : element) : bool := is_channel e || is_programme e.

(** The deduplication invariant of a run: the identities of the elements
    written so far are pairwise different and are members of the seen sets. *)
Record dedup_invariant (sh : shared) : Prop := {
  inv_channels_nodup :
    NoDup (map channel_id (written_channels (output sh)));
  inv_channels_seen :
    forall e, In e (written_channels (output sh)) ->
              channel_id e ∈ seen_channels sh;
  inv_programmes_nodup :
    NoDup (map programme_key (written_programmes (output sh)));
  inv_programmes_seen :
    forall e, In e (written_programmes (output sh)) ->
              programme_key e ∈ seen_programmes sh
}.

(** A clock that reads 2024-01-01T12:00:00 at every call. *)
Definition noon_2024_01_01 : Z := 63839707200000000.
Definition sample_clock : nat -> Z := fun _ => noon_2024_01_01.

(** A list of elements in which every channel comes before every
    programme. *)
Definition channels_then_programmes (l : list element) : Prop :=
  exists cs ps,
    l = cs ++ ps
    /\ Forall (fun e => is_channel e = true) cs
    /\ Forall (fun e => is_programme e = true) ps.

(** Two sources with one channel and one programme each. *)
Definition source_one : source :=
  plain_source [EndEvent (elem_channel "one");
                EndEvent (elem_programme "one" "20240101100000" "20240101110000")].
Definition source_two : source :=
  plain_source [EndEvent (elem_channel "two");
                EndEvent (elem_programme "two" "20240101100000" "20240101110000")].

(** An attempt the fetcher accepts: a response whose status is 200. *)
Definition succeeded (a : attempt_result) : bool :=
  match a with
  | Responded r => status_code r =? 200
  | _ => false
  end.

(** An attempt answered with a status in the 2xx range. *)
Definition answered_2xx (a : attempt_result) : bool :=
  match a with
  | Responded r => (200 <=? status_code r) && (status_code r <? 300)
  | _ => false
  end.

(** An attempt whose response the fetcher closes: answered, but not 200. *)
Definition closed_attempt (a : attempt_result) : bool :=
  match a with
  | Responded r => negb (status_code r =? 200)
  | _ => false
  end.

(** The effects of the j-th attempt of a call that makes [last] requests,
    the waits being of [delay] seconds: the request; the close of the
    response if it was answered with a status other than 200; the wait if
    another request follows. *)
Definition attempt_trace (net : nat -> attempt_result) (delay : Z)
    (last j : nat) : list effect :=
  HttpGet j
  :: (if closed_attempt (net j) then [CloseResponse] else [])
  ++ (if (j <? last)%nat then [Sleep delay] else []).

(** The effects of a call that makes [last] requests. *)
Definition requests_trace (net : nat -> attempt_result) (delay : Z)
    (last : nat) : list effect :=
  flat_map (attempt_trace net delay last) (seq 1 last).

(** A network that answers 204 to the first request and times out after. *)
Definition no_content_then_timeouts (attempt : nat) : attempt_result :=
  match attempt with
  | 1%nat => Responded {| status_code := 204; xml_events := [];
                          gunzip_events := [] |}
  | _ => Timeout
  end.

(** A network that fails four times and answers 200 to the fifth request. *)
Definition fifth_time_lucky (attempt : nat) : attempt_result :=
  match attempt with
  | 1%nat => Timeout
  | 2%nat => ConnectionError
  | 3%nat => Responded {| status_code := 503; xml_events := [];
                          gunzip_events := [] |}
  | 4%nat => RequestException
  | _ => Responded {| status_code := 200; xml_events := [];
                      gunzip_events := [] |}
  end.

(** Two programmes with different attributes and one key. *)
Definition programme_a_b : element := elem_programme "a_b" "c" "d".
Definition programme_a : element := elem_programme "a" "b_c" "d".

(** *** The repairs of [fix_xml_issues], one relation each *)

(** [amp_collapsed s s']: reading [s] from the left, every "&amp;amp;" met
    is replaced by "&amp;" and reading goes on after it; any other character
    is kept. *)
Inductive amp_collapsed : Text.text -> Text.text -> Prop :=
| amp_end : amp_collapsed [] []
| amp_hit t t' :
    amp_collapsed t t' ->
    amp_collapsed (amp_amp ++ t) (amp ++ t')
| amp_keep c t t' :
    Text.startswith amp_amp (c :: t) = false ->
    amp_collapsed t t' ->
    amp_collapsed (c :: t) (c :: t').

(** [programmes_separated s s']: reading [s] from the left, wherever a
    closing [</programme>] is followed, after white space only (possibly
    none), by [<programme], that white space is replaced by one newline and
    reading goes on after [<programme]; any other character is kept. *)
Inductive programmes_separated : Text.text -> Text.text -> Prop :=
| sep_end : programmes_separated [] []
| sep_hit ws t t' :
    forallb Text.space ws = true ->
    programmes_separated t t' ->
    programmes_separated
      (close_programme ++ ws ++ open_programme ++ t)
      (close_programme ++ newline ++ open_programme ++ t')
| sep_keep c t t' :
    (forall ws rest,
        forallb Text.space ws = true ->
        c :: t <> close_programme ++ ws ++ open_programme ++ rest) ->
    programmes_separated t t' ->
    programmes_separated (c :: t) (c :: t').

(** The pattern [</programme>\s*<programme]. *)
Definition separator : Text.regex :=
  [Text.Lit close_programme; Text.Many Text.space; Text.Lit open_programme].

(** The repair function read from the claim's words: a newline is put
    between a closing tag and an opening tag that touch, and nothing is done
    to tags that white space already separates. *)
Definition fix_xml_issues_adjacent_only (xml_content : Text.text)
  : Text.text :=
  let xml_content := Text.replace amp_amp amp xml_content in
  let xml_content :=
    Text.sub [Text.Lit close_programme; Text.Lit open_programme]
             (close_programme ++ newline ++ open_programme) xml_content in
  Text.sub [Text.Any not_printable] [] xml_content.

(** Two programme elements on separate, indented lines. *)
Definition indented_programmes : Text.text :=
  Text.of_string "<programme a='1'></programme>" ++ newline
  ++ Text.of_string "  <programme a='2'></programme>".

(** EM SPACE and IDEOGRAPHIC SPACE, white space above 255, and a CJK
    ideograph. *)
Definition em_space : Z := 0x2003.
Definition ideographic_space : Z := 0x3000.
Definition cjk_middle : Z := 0x4E2D.



(** ** The allow-list resolver

    [response.iter_lines] and the reading of the identifier file are library
    code: the lines they yield are inputs of the model. *)

(** [s.lstrip()], [s.rstrip()] and [s.strip()]: the characters removed are
    those of [str.isspace], on code points below 256 the set of [Re.space]. *)
Fixpoint lstrip (s : string) : string :=
  match s with
  | EmptyString => EmptyString
  | String c s' => if Re.space c then lstrip s' else s
  end.

Fixpoint rstrip (s : string) : string :=
  match s with
  | EmptyString => EmptyString
  | String c s' =>
      match rstrip s' with
      | EmptyString => if Re.space c then EmptyString else String c EmptyString
      | r => String c r
      end
  end.

Definition strip (s : string) : string := rstrip (lstrip s).

Definition is_quote (c : ascii) : bool := Ascii.eqb c (ascii_of_nat 34).
Definition not_quote (c : ascii) : bool := negb (is_quote c).

(** The character [x] of a pattern compiled with [re.IGNORECASE]. *)
Definition ignoring_case (x : ascii) (c : ascii) : bool :=
  Ascii.eqb (Str.lower_char c) x.

(** The pattern [tvg-id=Q([^Q]+)Q], Q standing for the double quote, with
    [re.IGNORECASE], in three parts: what comes before the group, the group,
    and what comes after it. *)
Definition tvg_id_key : Re.regex :=
  [Re.Any (ignoring_case "t"); Re.Any (ignoring_case "v");
   Re.Any (ignoring_case "g"); Re.Any (ignoring_case "-");
   Re.Any (ignoring_case "i"); Re.Any (ignoring_case "d");
   Re.Any (ignoring_case "="); Re.Lit dquote].
Definition tvg_id_group : Re.regex := [Re.Any not_quote; Re.Many not_quote].
Definition tvg_id_pattern : Re.regex :=
  tvg_id_key ++ tvg_id_group ++ [Re.Lit dquote].

(** The part of [s] that lies before its suffix [rest]. *)
Definition consumed (s rest : string) : string :=
  Str.slice_to (String.length s - String.length rest) s.

(** A match of the pattern at the head of [s]: the text of the group and
    the rest of the input after the match. *)
Definition match_tvg_id (s : string) : option (string * string) :=
  match Re.match_here tvg_id_key s with
  | Some after_key =>
      match Re.match_here tvg_id_group after_key with
      | Some after_group =>
          match Re.match_here [Re.Lit dquote] after_group with
          | Some rest => Some (consumed after_key after_group, rest)
          | None => None
          end
      | None => None
      end
  | None => None
  end.

(** [re.findall] of that pattern in a line: the groups of the matches, found from left to right and not overlapping.  [skip]
    counts the characters of a match still to be passed over. *)
Fixpoint findall_tvg_id_from (skip : nat) (s : string) : list string :=
  match s with
  | EmptyString => []
  | String c s' =>
      match skip with
      | S k => findall_tvg_id_from k s'
      | O =>
          match match_tvg_id s with
          | Some (group, rest) =>
              group :: findall_tvg_id_from
                         (String.length s - String.length rest - 1) s'
          | None => findall_tvg_id_from 0 s'
          end
      end
  end.

Definition findall_tvg_id (line : string) : list string :=
  findall_tvg_id_from 0 line.

(** One step of the iteration over [response.iter_lines(...)]: a line, or
    the point where the iteration (or the search in a line) raises. *)
Inductive line_item :=
| Line (s : string)
| LineFault.

(** The [for line in response.iter_lines(...)] loop inside its [try]: an
    exception ends it, and the identifiers found so far are kept. *)
Fixpoint scan_lines (items : list line_item) (tvg_ids : gset string)
  : gset string :=
  match items with
  | [] => tvg_ids
  | Line line :: items' =>
      scan_lines items'
        (if Str.truthy line
         then list_to_set (findall_tvg_id line) ∪ tvg_ids
         else tvg_ids)
  | LineFault :: _ => tvg_ids
  end.

(** The identifier file: absent, read to its end, or failing while read. *)
Inductive tvg_ids_file :=
| FileAbsent
| FileLines (lines : list string)
| FileUnreadable.

(** [set(line.strip() for line in file if line.strip())] *)
Definition file_ids (lines : list string) : gset string :=
  list_to_set
    (map strip (List.filter (fun line => Str.truthy (strip line)) lines)).

Section Resolver.

Context (cfg : config).
Context (iter_lines : response -> list line_item).

Definition extract_tvg_ids_from_playlist (playlist : source) : gset string :=
  match fst (fetch_with_retry cfg (network playlist)) with
  | None => ∅
  | Some resp => scan_lines (iter_lines resp) ∅
  end.

Definition get_valid_tvg_ids (file : tvg_ids_file)
    (playlist_urls : list source) : gset string :=
  let valid_tvg_ids :=
    match file with
    | FileLines lines => file_ids lines ∪ ∅
    | FileAbsent | FileUnreadable => ∅
    end in
  fold_left
    (fun valid playlist => extract_tvg_ids_from_playlist playlist ∪ valid)
    playlist_urls valid_tvg_ids.

End Resolver.

(** [filter_and_build_epg(epg_urls, playlist_urls)] with the allow-list it
    resolves first. *)
Definition filter_and_build_epg_resolving (cfg : config)
    (strptime : string -> option Z) (clock : nat -> Z)
    (iter_lines : response -> list line_item) (file : tvg_ids_file)
    (epg_urls playlist_urls : list source) : shared :=
  filter_and_build_epg cfg strptime clock epg_urls
    (get_valid_tvg_ids cfg iter_lines file playlist_urls).

(** ** Vocabulary of the further properties *)

(** A playlist line as [#EXTINF] has it. *)
Definition extinf_line : string :=
  "#EXTINF:-1 TVG-ID=" +:+ dquote +:+ "bbc.one" +:+ dquote
  +:+ " tvg-name=" +:+ dquote +:+ "BBC One" +:+ dquote +:+ ",BBC One".

(** A network on which every request times out. *)
Definition always_timeout : nat -> attempt_result := fun _ => Timeout.

(** The channel and programme elements of a list. *)
Definition channels_of (l : list element) : list element :=
  List.filter is_channel l.
Definition programmes_of (l : list element) : list element :=
  List.filter is_programme l.

(** The programme statistics that count a filter. *)
Definition programmes_filtered_total (s : stats) : nat :=
  (programmes_filtered_by_tvg_id s + programmes_filtered_by_future s
   + programmes_filtered_by_past s + programmes_filtered_by_dummy s)%nat.

Definition filtered_locally (c : counters) : nat :=
  (programmes_filtered_tvg c + programmes_skipped_future c
   + programmes_skipped_past c + programmes_skipped_dummy c)%nat.

(** No underscore in the text. *)
Definition no_underscore (s : string) : bool :=
  Str.all (fun c => negb (Ascii.eqb c "_")) s.

(** An element that the allow-list and, for a programme, the dummy filter
    let through. *)
Definition passed_filters (cfg : config) (valid : gset string)
    (e : element) : Prop :=
  (is_channel e = true -> not_in_valid valid (get e "id") = false)
  /\ (is_programme e = true ->
      not_in_valid valid (get e "channel") = false
      /\ is_dummy_programme cfg (get e "channel") = false).

(** A configuration with both windows open and dummy suppression on. *)
Definition strict_config : config := {|
  days_future := 7;
  days_past := 1;
  skip_dummy_programs := true;
  max_retries := 5;
  retry_delay := 5
|}.

(** A source no request for which is ever answered. *)
Definition unreachable_source : source :=
  {| url := "http://example.org/down.xml.gz"; network := always_timeout |}.

(** A playlist of one line, served at the first request. *)
Definition one_line_playlist : source := plain_source [].
Definition one_line : response -> list line_item :=
  fun _ => [Line extinf_line].

(** The cut-offs of the window filters that are switched on are datetimes
    at every reading of the clock, so that no filter raises. *)
Definition cutoffs_are_datetimes (cfg : config) (clock : nat -> Z) : Prop :=
  forall k,
    is_datetime (clock k)
    /\ (0 < days_future cfg ->
        clock k + days_future cfg * Strptime.us_per_day <= datetime_max)
    /\ (0 < days_past cfg ->
        0 <= clock k - days_past cfg * Strptime.us_per_day).

(** ** The model of [strptime] on sample inputs *)

Example strptime_offset_ignored :
  parse_xmltv_time Strptime.strptime (Some "20240229123456 +0100")
  = parse_xmltv_time Strptime.strptime (Some "20240229123456").
Proof. reflexivity. Qed.

Example strptime_value :
  Strptime.strptime "00010101000001" = Some 1000000.
Proof. reflexivity. Qed.

Example strptime_short_second :
  Strptime.strptime "2024010112000" = Strptime.strptime "20240101120000".
Proof. reflexivity. Qed.

Example strptime_bad_date :
  Strptime.strptime "20230229123456" = None.
Proof. reflexivity. Qed.

Example strptime_leap_day :
  Strptime.strptime "20240229123456" = Some 63844806896000000.
Proof. reflexivity. Qed.

Example strptime_noon :
  Strptime.strptime "20240101120000" = Some noon_2024_01_01.
Proof. reflexivity. Qed.

Example strptime_month_13 :
  Strptime.strptime "20241301000000" = None.
Proof. reflexivity. Qed.

Example strptime_second_60 :
  Strptime.strptime "20240101235960" = None.
Proof. reflexivity. Qed.

Example strptime_year_0 :
  Strptime.strptime "0000101000000" = None.
Proof. reflexivity. Qed.

Example strptime_not_a_time :
  Strptime.strptime "2024-01-01 10:" = None.
Proof. reflexivity. Qed.

(** ** The time-window filters (claims C7 and C8) *)

Lemma slice_to_truthy n s s' :
  Str.slice_to (S n) s = Str.slice_to (S n) s' ->
  Str.truthy s = Str.truthy s'.
Proof. destruct s, s'; simpl; congruence. Qed.

Lemma parse_xmltv_time_prefix strptime s s' :
  Str.slice_to 14 s = Str.slice_to 14 s' ->
  parse_xmltv_time strptime (Some s) = parse_xmltv_time strptime (Some s').
Proof.
  intros Hs. unfold parse_xmltv_time.
  rewrite (slice_to_truthy _ _ _ Hs), Hs. reflexivity.
Qed.

Lemma too_far_future_unparsed strptime clock s n k :
  parse_xmltv_time strptime s = None ->
  is_programme_too_far_future strptime clock s n k = (Value false, k).
Proof.
  intros Hp. unfold is_programme_too_far_future. rewrite Hp.
  destruct ((n =? 0) || (n <=? 0)); reflexivity.
Qed.

Lemma too_far_past_unparsed strptime clock s n k :
  parse_xmltv_time strptime s = None ->
  is_programme_too_far_past strptime clock s n k = (Value false, k).
Proof.
  intros Hp. unfold is_programme_too_far_past. rewrite Hp.
  destruct ((n =? 0) || (n <=? 0)); reflexivity.
Qed.

(** The cut-offs: the value when it is a datetime, the exception when not. *)
Lemma future_cutoff_spec clock n k :
  0 < n -> is_datetime (clock k) ->
  future_cutoff clock n k
  = (if clock k + n * Strptime.us_per_day <=? datetime_max
     then Value (clock k + n * Strptime.us_per_day) else OverflowError,
     S k).
Proof.
  intros Hn [Hlo Hhi]. unfold future_cutoff, datetime_now, timedelta_days,
    datetime_add, in_datetime_range.
  unfold datetime_max, Strptime.us_per_day, Strptime.us_per_second in *.
  destruct (Z.leb_spec (Z.abs n) 999999999);
    destruct (Z.leb_spec (clock k + n * (86400 * 1000000))
                (3652059 * (86400 * 1000000) - 1));
    try (destruct (Z.leb_spec 0 (clock k + n * (86400 * 1000000))));
    simpl; try reflexivity; lia.
Qed.

Lemma past_cutoff_spec clock n k :
  0 < n -> is_datetime (clock k) ->
  past_cutoff clock n k
  = (if 0 <=? clock k - n * Strptime.us_per_day
     then Value (clock k - n * Strptime.us_per_day) else OverflowError,
     S k).
Proof.
  intros Hn [Hlo Hhi]. unfold past_cutoff, datetime_now, timedelta_days,
    datetime_sub, in_datetime_range.
  unfold datetime_max, Strptime.us_per_day, Strptime.us_per_second in *.
  destruct (Z.leb_spec (Z.abs n) 999999999);
    destruct (Z.leb_spec 0 (clock k - n * (86400 * 1000000)));
    try (destruct (Z.leb_spec (clock k - n * (86400 * 1000000))
                     (3652059 * (86400 * 1000000) - 1)));
    simpl; try reflexivity; lia.
Qed.

Lemma window_positive n : (n =? 0) || (n <=? 0) = false <-> 0 < n.
Proof.
  rewrite orb_false_iff, Z.eqb_neq, Z.leb_gt. lia.
Qed.

Lemma too_far_future_parsed strptime clock s t n k :
  parse_xmltv_time strptime s = Some t ->
  is_datetime t -> is_datetime (clock k) ->
  (fst (is_programme_too_far_future strptime clock s n k) = Value true
   <-> 0 < n /\ clock k + n * Strptime.us_per_day < t)
  /\ (fst (is_programme_too_far_future strptime clock s n k) = OverflowError
      <-> 0 < n /\ datetime_max < clock k + n * Strptime.us_per_day).
Proof.
  intros Hp [Ht0 Ht1] Hnow. unfold is_programme_too_far_future. rewrite Hp.
  destruct ((n =? 0) || (n <=? 0)) eqn:Hn.
  { assert (~ 0 < n) by (rewrite <- window_positive; congruence).
    simpl. split; (split; [discriminate | tauto]). }
  apply window_positive in Hn. rewrite (future_cutoff_spec _ _ _ Hn Hnow).
  destruct (Z.leb_spec (clock k + n * Strptime.us_per_day) datetime_max);
    simpl.
  - split.
    + split; [intros [= H']; apply Z.ltb_lt in H'; auto
             | intros [_ H']; f_equal; now apply Z.ltb_lt].
    + split; [discriminate | lia].
  - split; [split; [discriminate | lia] | tauto].
Qed.

Lemma too_far_past_parsed strptime clock s t n k :
  parse_xmltv_time strptime s = Some t ->
  is_datetime t -> is_datetime (clock k) ->
  (fst (is_programme_too_far_past strptime clock s n k) = Value true
   <-> 0 < n /\ t < clock k - n * Strptime.us_per_day)
  /\ (fst (is_programme_too_far_past strptime clock s n k) = OverflowError
      <-> 0 < n /\ clock k - n * Strptime.us_per_day < 0).
Proof.
  intros Hp [Ht0 Ht1] Hnow. unfold is_programme_too_far_past. rewrite Hp.
  destruct ((n =? 0) || (n <=? 0)) eqn:Hn.
  { assert (~ 0 < n) by (rewrite <- window_positive; congruence).
    simpl. split; (split; [discriminate | tauto]). }
  apply window_positive in Hn. rewrite (past_cutoff_spec _ _ _ Hn Hnow).
  destruct (Z.leb_spec 0 (clock k - n * Strptime.us_per_day)); simpl.
  - split.
    + split; [intros [= H']; apply Z.ltb_lt in H'; auto
             | intros [_ H']; f_equal; now apply Z.ltb_lt].
    + split; [discriminate | lia].
  - split; [split; [discriminate | lia] | tauto].
Qed.

(** ** The loop body on a programme (claims C7 and C1) *)

Ltac case_filters :=
  repeat match goal with
  | |- context [if ?b then _ else _] => destruct b eqn:?
  | |- context [match ?p with (_, _) => _ end] => destruct p eqn:?
  | |- context [match ?o with Value _ => _ | OverflowError => _ end] =>
      destruct o eqn:?
  end.

(** C7, part on the engine: with an unparseable start (stop) the future
    (past) bucket is not the one that takes the programme. *)
Lemma on_programme_unparsed_start cfg strptime clock valid elem sh c :
  parse_xmltv_time strptime (get elem "start") = None ->
  programmes_skipped_future
    (snd (state_of (on_programme cfg strptime clock valid elem (sh, c))))
  = programmes_skipped_future c.
Proof.
  intros Hp. unfold on_programme.
  rewrite (too_far_future_unparsed _ _ _ _ _ Hp).
  case_filters; reflexivity.
Qed.

Lemma on_programme_unparsed_stop cfg strptime clock valid elem sh c :
  parse_xmltv_time strptime (get elem "stop") = None ->
  programmes_skipped_past
    (snd (state_of (on_programme cfg strptime clock valid elem (sh, c))))
  = programmes_skipped_past c.
Proof.
  intros Hp. unfold on_programme.
  destruct (not_in_valid _ _); [reflexivity|].
  destruct (is_dummy_programme _ _); [reflexivity|].
  destruct (is_programme_too_far_future _ _ _ _ _) as [[[]|] k1];
    try reflexivity.
  simpl ticks. rewrite (too_far_past_unparsed _ _ _ _ _ Hp).
  case_filters; reflexivity.
Qed.

(** C7. A timestamp that does not parse (a missing or an empty one
    included) never makes a time-window filter fire, so the programme is not
    counted as too far in the future or in the past because of it; and the
    parse looks at the first 14 characters only, so two strings that agree
    there (a timestamp with and without its zone offset) parse alike. *)
Theorem unparseable_time_not_too_far strptime clock :
  (forall time_str days_limit k,
      parse_xmltv_time strptime time_str = None ->
      is_programme_too_far_future strptime clock time_str days_limit k
        = (Value false, k)
      /\ is_programme_too_far_past strptime clock time_str days_limit k
        = (Value false, k))
  /\ parse_xmltv_time strptime None = None
  /\ parse_xmltv_time strptime (Some EmptyString) = None
  /\ (forall cfg valid elem sh c,
        (parse_xmltv_time strptime (get elem "start") = None ->
         programmes_skipped_future
           (snd (state_of
                   (on_programme cfg strptime clock valid elem (sh, c))))
         = programmes_skipped_future c)
        /\ (parse_xmltv_time strptime (get elem "stop") = None ->
            programmes_skipped_past
              (snd (state_of
                      (on_programme cfg strptime clock valid elem (sh, c))))
            = programmes_skipped_past c))
  /\ (forall s s',
        Str.slice_to 14 s = Str.slice_to 14 s' ->
        parse_xmltv_time strptime (Some s)
        = parse_xmltv_time strptime (Some s')).
Proof.
  repeat split.
  - now apply too_far_future_unparsed.
  - now apply too_far_past_unparsed.
  - apply on_programme_unparsed_start.
  - apply on_programme_unparsed_stop.
  - apply parse_xmltv_time_prefix.
Qed.

Lemma unparseable_time_not_too_far_witness :
  parse_xmltv_time Strptime.strptime (Some "2024-01-01 10:00") = None
  /\ is_programme_too_far_future Strptime.strptime sample_clock
       (Some "2024-01-01 10:00") 7 0 = (Value false, 0%nat)
  /\ is_programme_too_far_past Strptime.strptime sample_clock
       (Some "2024-01-01 10:00") 7 0 = (Value false, 0%nat)
  /\ parse_xmltv_time Strptime.strptime (Some "20240101100000 +0200")
     = parse_xmltv_time Strptime.strptime (Some "20240101100000 -0500").
Proof.
  pose proof (unparseable_time_not_too_far Strptime.strptime sample_clock)
    as (Hwin & _ & _ & _ & Hpre).
  split; [reflexivity|].
  split; [apply Hwin; reflexivity|].
  split; [apply Hwin; reflexivity|].
  apply Hpre; reflexivity.
Defined.

(** C8. For a start that parses, the future filter answers true exactly
    when the window is positive and the start lies strictly after the clock
    reading plus that many days; for a stop that parses, the past filter
    answers true exactly when the window is positive and the stop lies
    strictly before the clock reading minus that many days; with a window of
    0 neither filter fires, whatever the timestamp.  The timestamp and the
    clock reading are datetimes.  Where the cut-off is not a datetime the
    filter does not answer: [OverflowError] leaves it, which is exactly when
    the window is positive and the reading plus the window lies after
    [datetime.max], or the reading minus the window before
    [datetime.min]. *)
Theorem window_filters_exact strptime clock :
  (forall start_time_str start_time days_limit k,
      parse_xmltv_time strptime start_time_str = Some start_time ->
      is_datetime start_time -> is_datetime (clock k) ->
      (fst (is_programme_too_far_future strptime clock
              start_time_str days_limit k) = Value true
       <-> 0 < days_limit
           /\ clock k + days_limit * Strptime.us_per_day < start_time)
      /\ (fst (is_programme_too_far_future strptime clock
                 start_time_str days_limit k) = OverflowError
          <-> 0 < days_limit
              /\ datetime_max < clock k + days_limit * Strptime.us_per_day))
  /\ (forall stop_time_str stop_time days_limit k,
        parse_xmltv_time strptime stop_time_str = Some stop_time ->
        is_datetime stop_time -> is_datetime (clock k) ->
        (fst (is_programme_too_far_past strptime clock
                stop_time_str days_limit k) = Value true
         <-> 0 < days_limit
             /\ stop_time < clock k - days_limit * Strptime.us_per_day)
        /\ (fst (is_programme_too_far_past strptime clock
                   stop_time_str days_limit k) = OverflowError
            <-> 0 < days_limit
                /\ clock k - days_limit * Strptime.us_per_day < 0))
  /\ (forall time_str k,
        is_programme_too_far_future strptime clock time_str 0 k
        = (Value false, k)
        /\ is_programme_too_far_past strptime clock time_str 0 k
           = (Value false, k)).
Proof.
  split; [|split].
  - intros. now apply too_far_future_parsed.
  - intros. now apply too_far_past_parsed.
  - intros. split; reflexivity.
Qed.

Lemma window_filters_exact_witness :
  fst (is_programme_too_far_future Strptime.strptime sample_clock
         (Some "20240103000000 +0000") 1 0) = Value true
  /\ fst (is_programme_too_far_past Strptime.strptime sample_clock
            (Some "20231230000000 +0000") 1 0) = Value true
  /\ fst (is_programme_too_far_past Strptime.strptime sample_clock
            (Some "20231230000000 +0000") 800000 0) = OverflowError.
Proof.
  pose proof (window_filters_exact Strptime.strptime sample_clock)
    as (Hfuture & Hpast & _).
  assert (Hnow : is_datetime (sample_clock 0))
    by (vm_compute; split; discriminate).
  split; [|split].
  - apply (proj1 (Hfuture (Some "20240103000000 +0000") 63839836800000000 1
                    0%nat eq_refl ltac:(vm_compute; split; discriminate)
                    Hnow)).
    split; [lia | reflexivity].
  - apply (proj1 (Hpast (Some "20231230000000 +0000") 63839491200000000 1
                    0%nat eq_refl ltac:(vm_compute; split; discriminate)
                    Hnow)).
    split; [lia | reflexivity].
  - apply (proj2 (Hpast (Some "20231230000000 +0000") 63839491200000000
                    800000 0%nat eq_refl
                    ltac:(vm_compute; split; discriminate) Hnow)).
    split; [lia | reflexivity].
Defined.

(** *** Facts on the text primitives *)

#[local] Arguments String.append !_ _ / : simpl nomatch.

Lemma startswith_app p t : Str.startswith p (p +:+ t) = true.
Proof.
  induction p as [|a p IH]; simpl; [reflexivity|].
  now rewrite Ascii.eqb_refl, IH.
Qed.

Lemma startswith_inv p s :
  Str.startswith p s = true -> exists t, s = p +:+ t.
Proof.
  revert s. induction p as [|a p IH]; intros s H; simpl in *.
  - now exists s.
  - destruct s as [|b s]; [discriminate|].
    apply andb_true_iff in H as [Hab Hps].
    apply Ascii.eqb_eq in Hab as ->.
    destruct (IH _ Hps) as [t ->]. now exists t.
Qed.

Lemma contains_here sub s :
  Str.startswith sub s = true -> Str.contains sub s = true.
Proof. intros H. destruct s; simpl; now rewrite H. Qed.

Lemma contains_spec sub s :
  Str.contains sub s = true <-> exists pre post, s = pre +:+ sub +:+ post.
Proof.
  split.
  - induction s as [|c s IH]; simpl; intros H.
    + rewrite orb_false_r in H. apply startswith_inv in H as [t ->].
      now exists EmptyString, t.
    + apply orb_true_iff in H as [H | H].
      * apply startswith_inv in H as [t ->]. now exists EmptyString, t.
      * destruct (IH H) as (pre & post & ->). now exists (String c pre), post.
  - intros (pre & post & ->). induction pre as [|c pre IH]; simpl.
    + apply contains_here, startswith_app.
    + rewrite IH. apply orb_true_r.
Qed.

Lemma lower_app a b : Str.lower (a +:+ b) = Str.lower a +:+ Str.lower b.
Proof. induction a as [|c a IH]; simpl; [reflexivity | now rewrite IH]. Qed.

Lemma lower_app_inv s a b :
  Str.lower s = a +:+ b ->
  exists s1 s2, s = s1 +:+ s2 /\ Str.lower s1 = a /\ Str.lower s2 = b.
Proof.
  revert s. induction a as [|c a IH]; intros s H; simpl in *.
  - now exists EmptyString, s.
  - destruct s as [|d s]; [discriminate|]. simpl in H.
    injection H as Hc Hs. destruct (IH _ Hs) as (s1 & s2 & -> & H1 & H2).
    exists (String d s1), s2. simpl. now rewrite Hc, H1.
Qed.

(** ['dummy' in tvg_id.lower()]: some stretch of the identifier reads
    "dummy" once lowered. *)
Lemma contains_lower_spec sub s :
  Str.contains sub (Str.lower s) = true
  <-> exists pre mid post,
        s = pre +:+ mid +:+ post /\ Str.lower mid = sub.
Proof.
  rewrite contains_spec. split.
  - intros (a & b & H).
    apply lower_app_inv in H as (pre & rest & -> & _ & H).
    apply lower_app_inv in H as (mid & post & -> & Hm & _).
    now exists pre, mid, post.
  - intros (pre & mid & post & -> & <-).
    exists (Str.lower pre), (Str.lower post). now rewrite !lower_app.
Qed.


Lemma is_dummy_programme_spec cfg tvg_id :
  is_dummy_programme cfg tvg_id = true
  <-> skip_dummy_programs cfg = true
      /\ exists s pre mid post,
           tvg_id = Some s /\ s = pre +:+ mid +:+ post
           /\ Str.lower mid = "dummy".
Proof.
  unfold is_dummy_programme.
  destruct (skip_dummy_programs cfg); simpl.
  2: { split; [discriminate | intros [? _]; discriminate]. }
  destruct tvg_id as [s|].
  2: { split; [discriminate | intros (_ & ? & ? & ? & ? & ? & _); discriminate]. }
  destruct (Str.truthy s) eqn:Ht; simpl.
  - rewrite contains_lower_spec. split.
    + intros (pre & mid & post & H1 & H2). split; [reflexivity|].
      now exists s, pre, mid, post.
    + intros (_ & s' & pre & mid & post & [= <-] & H1 & H2).
      now exists pre, mid, post.
  - destruct s; [|discriminate]. split; [discriminate|].
    intros (_ & s' & pre & mid & post & [= <-] & H1 & H2).
    destruct pre; [|discriminate]. destruct mid; discriminate.
Qed.


(** The window filters compute what the claim words say, and raise exactly
    when the cut-off of a filter that reads the clock is no datetime. *)
Lemma too_far_future_eval strptime clock s n k :
  is_datetime (clock k) ->
  is_programme_too_far_future strptime clock s n k
  = (if future_cutoff_overflows (parse_xmltv_time strptime s) n (clock k)
     then OverflowError
     else Value (starts_beyond (parse_xmltv_time strptime s) n (clock k)),
     after_reading (parse_xmltv_time strptime s) n k).
Proof.
  intros Hnow.
  unfold is_programme_too_far_future, future_cutoff_overflows, starts_beyond,
    after_reading, reads_clock.
  destruct ((n =? 0) || (n <=? 0)) eqn:Hn.
  - assert (H : (0 <? n) = false)
      by (apply Z.ltb_ge; apply orb_true_iff in Hn as [Hn | Hn]; lia).
    rewrite H. simpl. now destruct (parse_xmltv_time strptime s).
  - apply window_positive in Hn.
    assert (H : (0 <? n) = true) by now apply Z.ltb_lt.
    rewrite H. simpl.
    destruct (parse_xmltv_time strptime s) as [t|]; [|reflexivity].
    rewrite (future_cutoff_spec _ _ _ Hn Hnow).
    destruct (Z.leb_spec (clock k + n * Strptime.us_per_day) datetime_max),
      (Z.ltb_spec datetime_max (clock k + n * Strptime.us_per_day));
      try lia; reflexivity.
Qed.

Lemma too_far_past_eval strptime clock s n k :
  is_datetime (clock k) ->
  is_programme_too_far_past strptime clock s n k
  = (if past_cutoff_overflows (parse_xmltv_time strptime s) n (clock k)
     then OverflowError
     else Value (stops_before (parse_xmltv_time strptime s) n (clock k)),
     after_reading (parse_xmltv_time strptime s) n k).
Proof.
  intros Hnow.
  unfold is_programme_too_far_past, past_cutoff_overflows, stops_before,
    after_reading, reads_clock.
  destruct ((n =? 0) || (n <=? 0)) eqn:Hn.
  - assert (H : (0 <? n) = false)
      by (apply Z.ltb_ge; apply orb_true_iff in Hn as [Hn | Hn]; lia).
    rewrite H. simpl. now destruct (parse_xmltv_time strptime s).
  - apply window_positive in Hn.
    assert (H : (0 <? n) = true) by now apply Z.ltb_lt.
    rewrite H. simpl.
    destruct (parse_xmltv_time strptime s) as [t|]; [|reflexivity].
    rewrite (past_cutoff_spec _ _ _ Hn Hnow).
    destruct (Z.leb_spec 0 (clock k - n * Strptime.us_per_day)),
      (Z.ltb_spec (clock k - n * Strptime.us_per_day) 0);
      try lia; reflexivity.
Qed.




(** ** The loop over a source (claims C2, C3, C5, C6) *)

(** *** What one end event does to the shared objects *)

Lemma on_channel_effect valid elem sh c :
  let st' := on_channel valid elem (sh, c) in
  ((fst st' = with_stats incr_total_channels sh)
   \/ (not_in_valid valid (get elem "id") = false
       /\ (get elem "id" ∉ seen_channels sh)
       /\ fst st' = write (Serialized elem)
                      (add_seen_channel (get elem "id")
                         (with_stats incr_total_channels sh)))).
Proof.
  unfold on_channel. simpl.
  destruct (not_in_valid valid (get elem "id")) eqn:Hv; [now left|].
  destruct (decide (get elem "id" ∉ seen_channels sh)) as [Hn | Hn].
  - rewrite (bool_decide_eq_true_2 _ Hn). right. auto.
  - rewrite (bool_decide_eq_false_2 _ Hn). now left.
Qed.

Lemma on_programme_effect cfg strptime clock valid elem sh c :
  let st' := state_of (on_programme cfg strptime clock valid elem (sh, c)) in
  let key := programme_key elem in
  exists k,
    ((fst st' = with_ticks k (with_stats incr_total_programmes sh))
     \/ (not_in_valid valid (get elem "channel") = false
         /\ (key ∉ seen_programmes sh)
         /\ fst st' = write (Serialized elem)
                        (add_seen_programme key
                           (with_ticks k
                              (with_stats incr_total_programmes sh))))).
Proof.
  unfold on_programme, programme_key. simpl.
  destruct (not_in_valid valid (get elem "channel")) eqn:Hv.
  { exists (ticks sh). left. now destruct sh. }
  destruct (is_dummy_programme cfg _).
  { exists (ticks sh). left. now destruct sh. }
  destruct (is_programme_too_far_future _ _ _ _ _) as [[[]|] k1]; simpl;
    try (exists k1; now left).
  destruct (is_programme_too_far_past _ _ _ _ _) as [[[]|] k2]; simpl;
    try (exists k2; now left).
  exists k2.
  destruct (decide (prog_key (get elem "channel") (get elem "start")
                      (get elem "stop") ∉ seen_programmes sh)) as [Hn | Hn].
  - rewrite (bool_decide_eq_true_2 _ Hn). right. auto.
  - rewrite (bool_decide_eq_false_2 _ Hn). now left.
Qed.

(** *** Lists of written elements *)

Lemma written_app out out' : written (out ++ out') = written out ++ written out'.
Proof.
  induction out as [|[s|e] out IH]; simpl; [reflexivity | exact IH |].
  now rewrite IH.
Qed.

Lemma written_serialized ws : written (map Serialized ws) = ws.
Proof. induction ws as [|e ws IH]; simpl; [reflexivity | now rewrite IH]. Qed.

Lemma tags_differ e : is_channel e = true -> is_programme e = false.
Proof.
  unfold is_channel, is_programme. intros H.
  apply String.eqb_eq in H. now rewrite H.
Qed.

(** *** The deduplication invariant *)

Lemma written_channels_snoc out e :
  written_channels (out ++ [Serialized e])
  = written_channels out ++ (if is_channel e then [e] else []).
Proof.
  unfold written_channels. rewrite written_app, List.filter_app. simpl.
  now destruct (is_channel e).
Qed.

Lemma written_programmes_snoc out e :
  written_programmes (out ++ [Serialized e])
  = written_programmes out ++ (if is_programme e then [e] else []).
Proof.
  unfold written_programmes. rewrite written_app, List.filter_app. simpl.
  now destruct (is_programme e).
Qed.

Lemma NoDup_map_snoc {A B} (f : A -> B) (l : list A) (x : A) :
  NoDup (map f l) -> (forall y, In y l -> f y <> f x) ->
  NoDup (map f (l ++ [x])).
Proof.
  intros Hnd Hx. rewrite map_app. simpl.
  apply NoDup_app. split; [exact Hnd|]. split.
  - intros b Hb Hb'. apply list_elem_of_In in Hb, Hb'.
    apply in_map_iff in Hb as (y & <- & Hy).
    destruct Hb' as [Hb' | []]. now apply (Hx y).
  - apply NoDup_singleton.
Qed.

Lemma dedup_invariant_initial : dedup_invariant initial_shared.
Proof. split; simpl; try constructor; intros ? []. Qed.

Lemma dedup_invariant_text sh s :
  dedup_invariant sh -> dedup_invariant (write (Text s) sh).
Proof.
  intros [H1 H2 H3 H4].
  assert (Hw : written (output sh ++ [Text s]) = written (output sh)).
  { rewrite written_app. simpl. apply app_nil_r. }
  split; unfold written_channels, written_programmes in *; simpl;
    rewrite Hw; auto.
Qed.

Lemma dedup_invariant_on_end_event cfg strptime clock valid elem sh c :
  dedup_invariant sh ->
  dedup_invariant
    (fst (state_of (on_end_event cfg strptime clock valid elem (sh, c)))).
Proof.
  intros [H1 H2 H3 H4]. unfold on_end_event.
  destruct (String.eqb (tag elem) "channel") eqn:Hc.
  - assert (Hc' : is_channel elem = true) by exact Hc.
    pose proof (tags_differ elem Hc') as Hp.
    cbv beta iota delta [state_of].
    destruct (on_channel_effect valid elem sh c) as [-> | (_ & Hn & ->)].
    + now split.
    + split; simpl; rewrite ?written_channels_snoc, ?written_programmes_snoc,
        ?Hc', ?Hp, ?app_nil_r; auto.
      * apply NoDup_map_snoc; [exact H1|].
        intros y Hy Heq. apply Hn. unfold channel_id in Heq.
        rewrite <- Heq. now apply H2.
      * intros e He. apply in_app_or in He as [He | [<- | []]].
        -- apply elem_of_union_r. now apply H2.
        -- apply elem_of_union_l. now apply elem_of_singleton.
  - destruct (String.eqb (tag elem) "programme") eqn:Hp; [|now split].
    assert (Hc' : is_channel elem = false) by exact Hc.
    assert (Hp' : is_programme elem = true) by exact Hp.
    destruct (on_programme_effect cfg strptime clock valid elem sh c)
      as (k & [-> | (_ & Hn & ->)]).
    + now split.
    + split; simpl; rewrite ?written_channels_snoc, ?written_programmes_snoc,
        ?Hc', ?Hp', ?app_nil_r; auto.
      * apply NoDup_map_snoc; [exact H3|].
        intros y Hy Heq. apply Hn. rewrite <- Heq. now apply H4.
      * intros e He. apply in_app_or in He as [He | [<- | []]].
        -- apply elem_of_union_r. now apply H4.
        -- apply elem_of_union_l. now apply elem_of_singleton.
Qed.

(** *** Lifting a property of the loop body to a source and to a run *)

Section Lifting.

Context (cfg : config) (strptime : string -> option Z) (clock : nat -> Z).
Context (valid : gset string).

Lemma iterate_preserves (Q : shared * counters -> Prop) :
  (forall elem st,
      Q st -> Q (state_of (on_end_event cfg strptime clock valid elem st))) ->
  forall items st,
    Q st -> Q (snd (iterate cfg strptime clock valid items st)).
Proof.
  intros Hstep items. induction items as [|[elem| |] items IH];
    intros st HQ; simpl; auto.
  specialize (Hstep elem st HQ).
  destruct (on_end_event cfg strptime clock valid elem st); simpl; auto.
Qed.

(** [P] is about the shared objects between two sources, [Q] about the
    shared objects and the local counters inside the loop. *)
Context (P : shared -> Prop) (Q : shared * counters -> Prop).
Hypothesis enter : forall sh, P sh -> Q (sh, counters_zero).
Hypothesis body :
  forall elem st,
    Q st -> Q (state_of (on_end_event cfg strptime clock valid elem st)).
Hypothesis leave :
  forall sh c,
    Q (sh, c) -> P sh /\ P (with_stats (fun s => add_counters s c) sh).

Lemma stream_parse_epg_preserves items sh :
  P sh ->
  P (result_state (stream_parse_epg cfg strptime clock items valid sh)).
Proof.
  intros HP. unfold stream_parse_epg.
  pose proof (iterate_preserves Q body items _ (enter sh HP)) as Hit.
  destruct (iterate _ _ _ _ _ _) as [ex [sh' c]]. simpl in Hit.
  destruct (leave _ _ Hit) as [H1 H2]. destruct ex; simpl; auto.
Qed.

Lemma process_epg_source_preserves src sh :
  P sh -> P (process_epg_source cfg strptime clock src valid sh).
Proof.
  intros HP. unfold process_epg_source.
  destruct (fst (fetch_with_retry cfg (network src))) as [resp|]; [|exact HP].
  pose proof (stream_parse_epg_preserves
                (if Str.endswith ".gz" (url src) then gunzip_events resp
                 else xml_events resp) sh HP) as H.
  destruct (stream_parse_epg _ _ _ _ _ _); exact H.
Qed.

Lemma process_all_preserves srcs sh :
  P sh -> P (process_all cfg strptime clock srcs valid sh).
Proof.
  unfold process_all. revert sh.
  induction srcs as [|src srcs IH]; intros sh HP; simpl; [exact HP|].
  apply IH. now apply process_epg_source_preserves.
Qed.

End Lifting.

(** The case of a property of the shared objects that the statistics do not
    enter. *)
Lemma process_all_preserves_shared cfg strptime clock valid
    (P : shared -> Prop) :
  (forall elem sh c,
      P sh ->
      P (fst (state_of
                (on_end_event cfg strptime clock valid elem (sh, c))))) ->
  (forall f sh, P sh -> P (with_stats f sh)) ->
  forall srcs sh,
    P sh -> P (process_all cfg strptime clock srcs valid sh).
Proof.
  intros Hstep Hstats.
  apply (process_all_preserves cfg strptime clock valid P
           (fun st => P (fst st))).
  - auto.
  - intros elem [sh c]. apply Hstep.
  - intros sh c H. split; [exact H | now apply Hstats].
Qed.

Lemma process_all_app cfg strptime clock valid pre post sh :
  process_all cfg strptime clock (pre ++ post) valid sh
  = process_all cfg strptime clock post valid
      (process_all cfg strptime clock pre valid sh).
Proof. unfold process_all. apply fold_left_app. Qed.

(** *** The sets only grow *)

Lemma on_end_event_insert_only cfg strptime clock valid elem st :
  seen_channels (fst st)
    ⊆ seen_channels
        (fst (state_of (on_end_event cfg strptime clock valid elem st)))
  /\ seen_programmes (fst st)
    ⊆ seen_programmes
        (fst (state_of (on_end_event cfg strptime clock valid elem st))).
Proof.
  destruct st as [sh c]. unfold on_end_event.
  destruct (String.eqb (tag elem) "channel").
  - cbv beta iota delta [state_of].
    destruct (on_channel_effect valid elem sh c) as [-> | (_ & _ & ->)];
      simpl; split; set_solver.
  - destruct (String.eqb (tag elem) "programme"); [|split; set_solver].
    destruct (on_programme_effect cfg strptime clock valid elem sh c)
      as (k & [-> | (_ & _ & ->)]); simpl; split; set_solver.
Qed.

Lemma process_all_insert_only cfg strptime clock valid srcs sh :
  seen_channels sh ⊆ seen_channels (process_all cfg strptime clock srcs valid sh)
  /\ seen_programmes sh
    ⊆ seen_programmes (process_all cfg strptime clock srcs valid sh).
Proof.
  apply (process_all_preserves_shared cfg strptime clock valid
           (fun sh' => seen_channels sh ⊆ seen_channels sh'
                       /\ seen_programmes sh ⊆ seen_programmes sh')).
  - intros elem sh' c [H1 H2].
    destruct (on_end_event_insert_only cfg strptime clock valid elem (sh', c))
      as [H3 H4]. simpl in *. split; set_solver.
  - intros f sh' H. exact H.
  - split; set_solver.
Qed.

Lemma NoDup_map_compose {A B C} (g : A -> B) (f : B -> C) (l : list A) :
  NoDup (map (fun x => f (g x)) l) -> NoDup (map g l).
Proof.
  induction l as [|x l IH]; simpl; intros H; [constructor|].
  apply NoDup_cons in H as [Hx Hl]. apply NoDup_cons. split; [|auto].
  intros Hin. apply Hx. apply list_elem_of_In in Hin. apply list_elem_of_In.
  apply in_map_iff in Hin as (y & Hy & Hyl).
  apply in_map_iff. exists y. split; [now rewrite Hy | exact Hyl].
Qed.

Lemma dedup_invariant_run cfg strptime clock srcs valid :
  dedup_invariant (filter_and_build_epg cfg strptime clock srcs valid).
Proof.
  unfold filter_and_build_epg, write_xml_footer, write_xml_header.
  apply dedup_invariant_text.
  apply (process_all_preserves_shared cfg strptime clock valid
           dedup_invariant).
  - intros. now apply dedup_invariant_on_end_event.
  - intros f sh [H1 H2 H3 H4]. now split.
  - do 2 apply dedup_invariant_text. apply dedup_invariant_initial.
Qed.

(** C2. Whatever the sources, no two channel elements of the output have
    the same identifier and no two programme elements of the output have the
    same (channel, start, stop) triple; and the two sets only ever gain
    members: at every end event, and from any point of the source list to
    the end of the run. *)
Theorem output_has_no_duplicates cfg strptime clock :
  (forall srcs valid,
      let sh := filter_and_build_epg cfg strptime clock srcs valid in
      NoDup (map channel_id (written_channels (output sh)))
      /\ NoDup (map programme_triple (written_programmes (output sh))))
  /\ (forall valid elem st,
        let st' := state_of (on_end_event cfg strptime clock valid elem st) in
        seen_channels (fst st) ⊆ seen_channels (fst st')
        /\ seen_programmes (fst st) ⊆ seen_programmes (fst st'))
  /\ (forall valid pre post sh,
        let mid := process_all cfg strptime clock pre valid sh in
        let fin := process_all cfg strptime clock (pre ++ post) valid sh in
        seen_channels mid ⊆ seen_channels fin
        /\ seen_programmes mid ⊆ seen_programmes fin).
Proof.
  split; [|split].
  - intros srcs valid sh.
    destruct (dedup_invariant_run cfg strptime clock srcs valid)
      as [H1 _ H3 _].
    split; [exact H1|].
    apply (NoDup_map_compose programme_triple
             (fun t => match t with (a, b, c) => prog_key a b c end)).
    exact H3.
  - intros. apply on_end_event_insert_only.
  - intros valid pre post sh mid fin. subst mid fin.
    rewrite process_all_app. apply process_all_insert_only.
Qed.

(** The same element served by two sources appears once. *)
Example verbatim_repeat_written_once clock :
  let c := elem_channel "bbc1" in
  let p := elem_programme "bbc1" "20240101100000 +0000" "20240101110000 +0000" in
  let src := plain_source [EndEvent c; EndEvent p] in
  written (output (filter_and_build_epg
                     {| days_future := 0; days_past := 0;
                        skip_dummy_programs := false;
                        max_retries := 5; retry_delay := 5 |}
                     Strptime.strptime clock [src; src] ∅))
  = [c; p].
Proof. vm_compute. reflexivity. Qed.

(** *** An empty allow-list (claim C3) *)

Lemma not_in_valid_empty tvg_id : not_in_valid ∅ tvg_id = false.
Proof.
  unfold not_in_valid. rewrite bool_decide_eq_false_2; [reflexivity|].
  intros H. now apply H.
Qed.

Lemma on_end_event_empty_allow_list cfg strptime clock elem st :
  let st' := state_of (on_end_event cfg strptime clock ∅ elem st) in
  channels_filtered (snd st') = channels_filtered (snd st)
  /\ programmes_filtered_tvg (snd st') = programmes_filtered_tvg (snd st)
  /\ channels_filtered_by_tvg_id (run_stats (fst st'))
     = channels_filtered_by_tvg_id (run_stats (fst st))
  /\ programmes_filtered_by_tvg_id (run_stats (fst st'))
     = programmes_filtered_by_tvg_id (run_stats (fst st)).
Proof.
  destruct st as [sh c]. unfold on_end_event, on_channel, on_programme.
  rewrite !not_in_valid_empty. case_filters; simpl; auto.
Qed.

(** C3. With an empty allow-list the membership filter never fires: it
    answers false for every identifier, no end event moves the two
    filtered-by-identifier counters of the loop, and at the end of a run over
    any sources [channels_filtered_by_tvg_id] and
    [programmes_filtered_by_tvg_id] are 0. *)
Theorem empty_allow_list_filters_nothing cfg strptime clock :
  (forall tvg_id, not_in_valid ∅ tvg_id = false)
  /\ (forall elem st,
        let st' := state_of (on_end_event cfg strptime clock ∅ elem st) in
        channels_filtered (snd st') = channels_filtered (snd st)
        /\ programmes_filtered_tvg (snd st')
           = programmes_filtered_tvg (snd st))
  /\ (forall srcs,
        let sh := filter_and_build_epg cfg strptime clock srcs ∅ in
        channels_filtered_by_tvg_id (run_stats sh) = 0%nat
        /\ programmes_filtered_by_tvg_id (run_stats sh) = 0%nat).
Proof.
  split; [exact not_in_valid_empty|]. split.
  - intros elem st.
    destruct (on_end_event_empty_allow_list cfg strptime clock elem st)
      as (H1 & H2 & _). auto.
  - intros srcs. unfold filter_and_build_epg, write_xml_footer. simpl.
    apply (process_all_preserves cfg strptime clock ∅
             (fun sh => channels_filtered_by_tvg_id (run_stats sh) = 0%nat
                        /\ programmes_filtered_by_tvg_id (run_stats sh) = 0%nat)
             (fun st =>
                (channels_filtered_by_tvg_id (run_stats (fst st)) = 0%nat
                 /\ programmes_filtered_by_tvg_id (run_stats (fst st)) = 0%nat)
                /\ channels_filtered (snd st) = 0%nat
                /\ programmes_filtered_tvg (snd st) = 0%nat)).
    + intros sh H. simpl. auto.
    + intros elem st ((H1 & H2) & H3 & H4).
      destruct (on_end_event_empty_allow_list cfg strptime clock elem st)
        as (E1 & E2 & E3 & E4).
      rewrite E1, E2, E3, E4. auto.
    + intros sh c ((H1 & H2) & H3 & H4). simpl in *.
      rewrite H1, H2, H3, H4. auto.
    + simpl. auto.
Qed.

(** *** The shape of the output (claim C5) *)

Lemma on_end_event_output cfg strptime clock valid elem st :
  exists ws,
    output (fst (state_of (on_end_event cfg strptime clock valid elem st)))
    = output (fst st) ++ map Serialized ws
    /\ sublist ws [elem]
    /\ Forall (fun e => tag_is_known e = true) ws.
Proof.
  destruct st as [sh c]. unfold on_end_event.
  destruct (String.eqb (tag elem) "channel") eqn:Hc.
  - cbv beta iota delta [state_of].
    destruct (on_channel_effect valid elem sh c) as [-> | (_ & _ & ->)].
    + exists []. simpl. rewrite app_nil_r. repeat split; auto.
      apply sublist_nil_l.
    + exists [elem]. simpl. repeat split; auto.
      constructor; [|constructor]. unfold tag_is_known, is_channel.
      now rewrite Hc.
  - destruct (String.eqb (tag elem) "programme") eqn:Hp.
    + destruct (on_programme_effect cfg strptime clock valid elem sh c)
        as (k & [-> | (_ & _ & ->)]).
      * exists []. simpl. rewrite app_nil_r. repeat split; auto.
        apply sublist_nil_l.
      * exists [elem]. simpl. repeat split; auto.
        constructor; [|constructor]. unfold tag_is_known, is_programme.
        rewrite Hp. apply orb_true_r.
    + exists []. simpl. rewrite app_nil_r. repeat split; auto.
      apply sublist_nil_l.
Qed.

Lemma iterate_output cfg strptime clock valid items st :
  exists ws,
    output (fst (snd (iterate cfg strptime clock valid items st)))
    = output (fst st) ++ map Serialized ws
    /\ sublist ws (elements_before_fault items)
    /\ Forall (fun e => tag_is_known e = true) ws.
Proof.
  revert st. induction items as [|[elem| |] items IH]; intros st; simpl.
  - exists []. simpl. rewrite app_nil_r. repeat split; auto.
  - destruct (on_end_event_output cfg strptime clock valid elem st)
      as (w1 & E1 & S1 & F1).
    change (elem :: elements_before_fault items)
      with ([elem] ++ elements_before_fault items).
    destruct (on_end_event cfg strptime clock valid elem st) as [st' | st'];
      simpl in E1.
    + destruct (IH st') as (w2 & E2 & S2 & F2).
      exists (w1 ++ w2). rewrite E2, E1, map_app, app_assoc.
      split; [reflexivity|]. split; [|now apply Forall_app].
      now apply sublist_app.
    + exists w1. simpl. split; [exact E1|]. split; [|exact F1].
      rewrite <- (app_nil_r w1).
      change (elem :: elements_before_fault items)
        with ([elem] ++ elements_before_fault items).
      apply sublist_app; [exact S1 | apply sublist_nil_l].
  - exists []. simpl. rewrite app_nil_r. repeat split; auto.
  - exists []. simpl. rewrite app_nil_r. repeat split; auto.
Qed.

Lemma process_epg_source_output cfg strptime clock valid src sh :
  exists ws,
    output (process_epg_source cfg strptime clock src valid sh)
    = output sh ++ map Serialized ws
    /\ sublist ws (document_of cfg src)
    /\ Forall (fun e => tag_is_known e = true) ws.
Proof.
  unfold process_epg_source, document_of, events_for.
  destruct (fst (fetch_with_retry cfg (network src))) as [resp|].
  2: { exists []. simpl. rewrite app_nil_r. repeat split; auto. }
  set (items := if Str.endswith ".gz" (url src) then gunzip_events resp
                else xml_events resp).
  destruct (iterate_output cfg strptime clock valid items (sh, counters_zero))
    as (ws & E & S & F).
  exists ws. split; [|auto]. unfold stream_parse_epg.
  destruct (iterate _ _ _ _ _ _) as [[] [sh' c]]; simpl in *; exact E.
Qed.

Lemma process_all_output cfg strptime clock valid srcs sh :
  exists ws,
    output (process_all cfg strptime clock srcs valid sh)
    = output sh ++ map Serialized ws
    /\ sublist ws (concat (map (document_of cfg) srcs))
    /\ Forall (fun e => tag_is_known e = true) ws.
Proof.
  unfold process_all. revert sh.
  induction srcs as [|src srcs IH]; intros sh; simpl.
  - exists []. simpl. rewrite app_nil_r. repeat split; auto.
  - destruct (process_epg_source_output cfg strptime clock valid src sh)
      as (w1 & E1 & S1 & F1).
    destruct (IH (process_epg_source cfg strptime clock src valid sh))
      as (w2 & E2 & S2 & F2).
    exists (w1 ++ w2). rewrite E2, E1, map_app, app_assoc.
    split; [reflexivity|]. split; [|now apply Forall_app].
    now apply sublist_app.
Qed.

(** C5, as amended.  The output is the XML declaration line and the root
    open tag, then the serialised elements, then the root close tag.  The
    elements serialised are channel and programme elements, and they are a
    subsequence of the sources' documents laid end to end in source-list
    order, each in document order; channels and programmes come in the order
    met, not channels first. *)
Theorem output_is_envelope_around_elements_in_order cfg strptime clock :
  forall srcs valid,
  exists ws,
    output (filter_and_build_epg cfg strptime clock srcs valid)
    = [Text xml_declaration; Text ("<tv>" +:+ nl)]
      ++ map Serialized ws ++ [Text ("</tv>" +:+ nl)]
    /\ sublist ws (concat (map (document_of cfg) srcs))
    /\ Forall (fun e => tag_is_known e = true) ws.
Proof.
  intros srcs valid.
  destruct (process_all_output cfg strptime clock valid srcs
              (write_xml_header initial_shared)) as (ws & E & S & F).
  exists ws. split; [|auto].
  unfold filter_and_build_epg, write_xml_footer. simpl. rewrite E.
  simpl. reflexivity.
Qed.

(** C5, as stated, fails: with two sources of one channel and one programme
    each, the channel of the second source is written after the programme of
    the first. *)
Lemma channels_before_programmes_counterexample :
  ~ channels_then_programmes
      (written (output (filter_and_build_epg script_config Strptime.strptime
                          sample_clock [source_one; source_two] ∅))).
Proof.
  assert (E : written (output (filter_and_build_epg script_config
                Strptime.strptime sample_clock [source_one; source_two] ∅))
              = [elem_channel "one";
                 elem_programme "one" "20240101100000" "20240101110000";
                 elem_channel "two";
                 elem_programme "two" "20240101100000" "20240101110000"])
    by (vm_compute; reflexivity).
  rewrite E. intros (cs & ps & Heq & Hcs & Hps).
  destruct cs as [|c1 cs]; simpl in Heq.
  - subst ps. apply Forall_cons in Hps as [Hp _]. discriminate Hp.
  - injection Heq as <- Heq. destruct cs as [|c2 cs]; simpl in Heq.
    + subst ps. apply Forall_cons in Hps as [_ Hps].
      apply Forall_cons in Hps as [Hp _]. discriminate Hp.
    + injection Heq as <- Heq. apply Forall_cons in Hcs as [_ Hcs].
      apply Forall_cons in Hcs as [Hc _]. discriminate Hc.
Qed.

(** *** The loop leaves the five filter statistics to the end of the call *)

Lemma on_end_event_filter_stats_kept cfg strptime clock valid elem st :
  let s' :=
    run_stats (fst (state_of (on_end_event cfg strptime clock valid elem st)))
  in
  channels_filtered_by_tvg_id s'
  = channels_filtered_by_tvg_id (run_stats (fst st))
  /\ programmes_filtered_by_tvg_id s'
     = programmes_filtered_by_tvg_id (run_stats (fst st))
  /\ programmes_filtered_by_future s'
     = programmes_filtered_by_future (run_stats (fst st))
  /\ programmes_filtered_by_past s'
     = programmes_filtered_by_past (run_stats (fst st))
  /\ programmes_filtered_by_dummy s'
     = programmes_filtered_by_dummy (run_stats (fst st)).
Proof.
  destruct st as [sh c]. unfold on_end_event, on_channel, on_programme.
  case_filters; simpl; auto.
Qed.

Lemma iterate_filter_stats_kept cfg strptime clock valid items st :
  let s' := run_stats (fst (snd (iterate cfg strptime clock valid items st)))
  in
  channels_filtered_by_tvg_id s'
  = channels_filtered_by_tvg_id (run_stats (fst st))
  /\ programmes_filtered_by_tvg_id s'
     = programmes_filtered_by_tvg_id (run_stats (fst st))
  /\ programmes_filtered_by_future s'
     = programmes_filtered_by_future (run_stats (fst st))
  /\ programmes_filtered_by_past s'
     = programmes_filtered_by_past (run_stats (fst st))
  /\ programmes_filtered_by_dummy s'
     = programmes_filtered_by_dummy (run_stats (fst st)).
Proof.
  apply (iterate_preserves cfg strptime clock valid
           (fun st' =>
              channels_filtered_by_tvg_id (run_stats (fst st'))
              = channels_filtered_by_tvg_id (run_stats (fst st))
              /\ programmes_filtered_by_tvg_id (run_stats (fst st'))
                 = programmes_filtered_by_tvg_id (run_stats (fst st))
              /\ programmes_filtered_by_future (run_stats (fst st'))
                 = programmes_filtered_by_future (run_stats (fst st))
              /\ programmes_filtered_by_past (run_stats (fst st'))
                 = programmes_filtered_by_past (run_stats (fst st))
              /\ programmes_filtered_by_dummy (run_stats (fst st'))
                 = programmes_filtered_by_dummy (run_stats (fst st)))).
  - intros elem st0 (H1 & H2 & H3 & H4 & H5).
    destruct (on_end_event_filter_stats_kept cfg strptime clock valid elem
                st0) as (E1 & E2 & E3 & E4 & E5).
    rewrite E1, E2, E3, E4, E5. auto.
  - auto.
Qed.

(** *** A syntax error in the middle of a source (claim C6) *)

(** A stream is handled item by item: what follows a part that was read to
    its end is handled from the state that part left. *)
Lemma iterate_app cfg strptime clock valid items rest st st' :
  iterate cfg strptime clock valid items st = (Exhausted, st') ->
  iterate cfg strptime clock valid (items ++ rest) st
  = iterate cfg strptime clock valid rest st'.
Proof.
  revert st. induction items as [|[elem| |] items IH]; intros st; simpl.
  - now intros [= ->].
  - destruct (on_end_event cfg strptime clock valid elem st);
      [apply IH | discriminate].
  - discriminate.
  - discriminate.
Qed.








(** A source malformed after its first programme, followed by a sound one. *)
Example malformed_source_then_sound_one clock :
  let p1 := elem_programme "one" "20240101100000" "20240101110000" in
  let p2 := elem_programme "one" "20240101110000" "20240101120000" in
  let p3 := elem_programme "two" "20240101100000" "20240101110000" in
  let sh := filter_and_build_epg
              {| days_future := 0; days_past := 0;
                 skip_dummy_programs := false;
                 max_retries := 5; retry_delay := 5 |}
              Strptime.strptime clock
              [plain_source [EndEvent p1; SyntaxFault; EndEvent p2];
               plain_source [EndEvent p3]] {[ "one" ]} in
  written (output sh) = [p1]
  /\ total_programmes_in_sources (run_stats sh) = 2%nat
  /\ programmes_filtered_by_tvg_id (run_stats sh) = 1%nat.
Proof. vm_compute. auto. Qed.

(** ** The retrying fetcher (claim C4) *)

Section Fetch.

Context (cfg : config) (net : nat -> attempt_result).

Lemma succeeded_spec a :
  succeeded a = true <-> exists r, a = Responded r /\ status_code r = 200.
Proof.
  destruct a as [| | |r]; simpl;
    try (split; [discriminate | intros (r' & Hr & _); discriminate]).
  rewrite Z.eqb_eq. split.
  - intros H. now exists r.
  - now intros (r' & [= <-] & H).
Qed.

Lemma closed_attempt_succeeded a :
  succeeded a = true -> closed_attempt a = false.
Proof. destruct a as [| | |r]; simpl; try discriminate. now intros ->. Qed.

(** One iteration of the loop that ends with an accepted attempt. *)
Lemma fetch_loop_success_step remaining attempt :
  succeeded (net attempt) = true ->
  exists r,
    net attempt = Responded r /\ status_code r = 200
    /\ fetch_loop cfg net (S remaining) attempt = (Some r, [HttpGet attempt]).
Proof.
  intros Hs. simpl.
  destruct (net attempt) as [| | |r]; simpl in Hs; try discriminate Hs.
  exists r. rewrite Hs. repeat split. now apply Z.eqb_eq.
Qed.

(** One iteration of the loop that ends with a failed attempt: the request,
    the close of an answered response, the wait unless the attempt was the
    last one allowed, and then the rest of the loop. *)
Lemma fetch_loop_failure_step remaining attempt :
  succeeded (net attempt) = false ->
  let rest := fetch_loop cfg net remaining (S attempt) in
  fetch_loop cfg net (S remaining) attempt
  = (fst rest,
     attempt_trace net (retry_delay cfg) (max_retries cfg) attempt
     ++ snd rest).
Proof.
  intros Hf. simpl. unfold attempt_trace, closed_attempt.
  destruct (net attempt) as [| | |r]; simpl in Hf; try rewrite Hf;
    destruct (fetch_loop cfg net remaining (S attempt)) as [res later];
    simpl; destruct (attempt <? max_retries cfg)%nat; reflexivity.
Qed.

(** The loop started at [attempt] with [remaining] iterations to go makes
    some number [n] of requests: its effects are those of the attempts
    [attempt], ..., [attempt + n - 1], with a wait after each but the last;
    all but the last failed; and either the last was accepted and its
    response is returned, or every iteration was used and failed. *)
Lemma fetch_loop_trace remaining attempt :
  (attempt + remaining = S (max_retries cfg))%nat ->
  let res := fetch_loop cfg net remaining attempt in
  exists n,
    (n <= remaining)%nat
    /\ snd res
       = flat_map (attempt_trace net (retry_delay cfg) (attempt + n - 1))
           (seq attempt n)
    /\ (forall j, (attempt <= j < attempt + n - 1)%nat ->
                  succeeded (net j) = false)
    /\ match fst res with
       | Some r =>
           (1 <= n)%nat /\ net (attempt + n - 1)%nat = Responded r
           /\ status_code r = 200
       | None =>
           n = remaining
           /\ forall j, (attempt <= j < attempt + n)%nat ->
                        succeeded (net j) = false
       end.
Proof.
  revert attempt. induction remaining as [|rem IH]; intros attempt Hinv.
  { exists 0%nat. simpl. repeat split; auto; intros j Hj; lia. }
  cbv zeta. destruct (succeeded (net attempt)) eqn:Hs.
  - destruct (fetch_loop_success_step rem attempt Hs) as (r & Hn & Hst & E).
    exists 1%nat. rewrite E.
    replace (attempt + 1 - 1)%nat with attempt by lia.
    split; [lia|]. split.
    + simpl. unfold attempt_trace.
      rewrite (closed_attempt_succeeded _ Hs), Nat.ltb_irrefl. reflexivity.
    + split; [intros j Hj; lia | simpl; auto].
  - destruct (IH (S attempt) ltac:(lia)) as (n & Hle & Htr & Hfail & Hres).
    rewrite (fetch_loop_failure_step rem attempt Hs). cbv zeta.
    exists (S n). cbn [fst snd].
    replace (attempt + S n - 1)%nat with (attempt + n)%nat by lia.
    assert (Hpos : (rem = 0 -> n = 0)%nat) by lia.
    assert (Hn : (1 <= rem -> 1 <= n)%nat).
    { intros Hrem. destruct (fst (fetch_loop cfg net rem (S attempt)));
        [tauto | destruct Hres as [-> _]; exact Hrem]. }
    split; [lia|]. split.
    { assert (A1 : attempt_trace net (retry_delay cfg) (max_retries cfg)
                     attempt
                   = attempt_trace net (retry_delay cfg) (attempt + n)
                       attempt).
      { unfold attempt_trace.
        destruct (Nat.ltb_spec attempt (max_retries cfg)),
          (Nat.ltb_spec attempt (attempt + n)); try reflexivity; lia. }
      assert (A2 : flat_map
                     (attempt_trace net (retry_delay cfg)
                        (S attempt + n - 1)) (seq (S attempt) n)
                   = flat_map
                       (attempt_trace net (retry_delay cfg) (attempt + n))
                       (seq (S attempt) n)).
      { destruct n as [|n']; [reflexivity|].
        now replace (S attempt + S n' - 1)%nat with (attempt + S n')%nat
          by lia. }
      rewrite Htr, A1, A2. reflexivity. }
    split.
    { intros j Hj. destruct (Nat.eq_dec j attempt) as [-> | Hne];
        [exact Hs | apply Hfail; lia]. }
    destruct (fst (fetch_loop cfg net rem (S attempt))) as [r|].
    + destruct Hres as (H1 & H2 & H3). split; [lia|]. split; [|exact H3].
      rewrite <- H2. f_equal. lia.
    + destruct Hres as [-> Hall]. split; [reflexivity|].
      intros j Hj. destruct (Nat.eq_dec j attempt) as [-> | Hne];
        [exact Hs | apply Hall; lia].
Qed.

(** The whole call. *)
Lemma fetch_with_retry_trace :
  let res := fetch_with_retry cfg net in
  exists n,
    (n <= max_retries cfg)%nat
    /\ snd res = requests_trace net (retry_delay cfg) n
    /\ (forall j, (1 <= j < n)%nat -> succeeded (net j) = false)
    /\ match fst res with
       | Some r =>
           (1 <= n)%nat /\ net n = Responded r /\ status_code r = 200
       | None =>
           n = max_retries cfg
           /\ forall j, (1 <= j <= n)%nat -> succeeded (net j) = false
       end.
Proof.
  unfold fetch_with_retry, requests_trace.
  destruct (fetch_loop_trace (max_retries cfg) 1 eq_refl)
    as (n & Hle & Htr & Hfail & Hres).
  exists n. replace (1 + n - 1)%nat with n in * by lia.
  split; [exact Hle|]. split; [exact Htr|]. split.
  - intros j Hj. apply Hfail. lia.
  - destruct (fst (fetch_loop cfg net (max_retries cfg) 1)); [exact Hres|].
    destruct Hres as [E Hall]. split; [exact E|].
    intros j Hj. apply Hall. lia.
Qed.

(** When the first accepted attempt is the k-th. *)
Lemma fetch_with_retry_success k r :
  (1 <= k <= max_retries cfg)%nat ->
  net k = Responded r -> status_code r = 200 ->
  (forall j, (1 <= j < k)%nat -> succeeded (net j) = false) ->
  fetch_with_retry cfg net = (Some r, requests_trace net (retry_delay cfg) k).
Proof.
  intros Hk Hnet Hst Hfail.
  assert (Hsk : succeeded (net k) = true)
    by (apply succeeded_spec; now exists r).
  destruct fetch_with_retry_trace as (n & Hle & Htr & Hf & Hres).
  destruct (fetch_with_retry cfg net) as [res tr]. simpl in *.
  destruct res as [r'|].
  - destruct Hres as (Hn & Hnn & Hst').
    assert (Hsn : succeeded (net n) = true)
      by (apply succeeded_spec; now exists r').
    assert (n = k) as ->.
    { destruct (lt_eq_lt_dec n k) as [[Hlt | Heq] | Hgt]; [|exact Heq|].
      - rewrite Hfail in Hsn by lia. discriminate.
      - rewrite Hf in Hsk by lia. discriminate. }
    rewrite Hnet in Hnn. injection Hnn as ->. now rewrite Htr.
  - destruct Hres as [-> Hall]. rewrite Hall in Hsk by lia. discriminate.
Qed.

(** When no attempt is accepted. *)
Lemma fetch_with_retry_exhausted :
  (forall j, (1 <= j <= max_retries cfg)%nat -> succeeded (net j) = false) ->
  fetch_with_retry cfg net
  = (None, requests_trace net (retry_delay cfg) (max_retries cfg)).
Proof.
  intros Hfail.
  destruct fetch_with_retry_trace as (n & Hle & Htr & Hf & Hres).
  destruct (fetch_with_retry cfg net) as [res tr]. simpl in *.
  destruct res as [r'|].
  - destruct Hres as (Hn & Hnn & Hst').
    assert (Hsn : succeeded (net n) = true)
      by (apply succeeded_spec; now exists r').
    rewrite Hfail in Hsn by lia. discriminate.
  - destruct Hres as [-> _]. now rewrite Htr.
Qed.

End Fetch.

(** C4, as amended.  The fetcher makes at most 5 requests, in order.  An
    attempt is accepted when it is answered with status 200, and only then:
    a time-out, a connection error, any other transport error and any other
    status, the other 2xx ones included, count as failures.  When the first
    accepted attempt is the k-th, its response is returned and the effects
    of the call are, in this order: for each of the attempts 1 to k - 1 the
    request, the close of the response if there was one, and a wait of 5
    seconds; then the k-th request, with no wait after it.  When all 5
    attempts fail the result is [None] and the effects are the same for the
    attempts 1 to 4, then the fifth request and the close of its response if
    there was one, with no wait after it. *)
Theorem fetch_retries_until_status_200 :
  (forall net k r,
      (1 <= k <= 5)%nat ->
      net k = Responded r -> status_code r = 200 ->
      (forall j, (1 <= j < k)%nat -> succeeded (net j) = false) ->
      fetch_with_retry script_config net
      = (Some r,
         flat_map
           (fun j =>
              [HttpGet j]
              ++ (if closed_attempt (net j) then [CloseResponse] else [])
              ++ [Sleep 5])
           (seq 1 (k - 1))
         ++ [HttpGet k]))
  /\ (forall net,
        (forall j, (1 <= j <= 5)%nat -> succeeded (net j) = false) ->
        fetch_with_retry script_config net
        = (None,
           flat_map
             (fun j =>
                [HttpGet j]
                ++ (if closed_attempt (net j) then [CloseResponse] else [])
                ++ [Sleep 5])
             (seq 1 4)
           ++ [HttpGet 5]
           ++ (if closed_attempt (net 5%nat) then [CloseResponse] else [])))
  /\ (forall a,
        succeeded a = true
        <-> exists r, a = Responded r /\ status_code r = 200).
Proof.
  split; [|split].
  - intros net k r Hk Hnet Hst Hfail.
    rewrite (fetch_with_retry_success script_config net k r Hk Hnet Hst
               Hfail).
    f_equal. unfold requests_trace.
    assert (Hs : closed_attempt (net k) = false).
    { apply closed_attempt_succeeded, succeeded_spec. now exists r. }
    destruct k as [|[|[|[|[|[|k]]]]]]; try lia; simpl;
      unfold attempt_trace; simpl; rewrite Hs;
      repeat match goal with
             | |- context [closed_attempt ?a] => destruct (closed_attempt a)
             end; reflexivity.
  - intros net Hfail.
    rewrite (fetch_with_retry_exhausted script_config net Hfail).
    f_equal. unfold requests_trace, attempt_trace. simpl.
    repeat match goal with
           | |- context [closed_attempt ?a] => destruct (closed_attempt a)
           end; reflexivity.
  - exact succeeded_spec.
Qed.

Lemma fetch_retries_until_status_200_witness :
  fetch_with_retry script_config fifth_time_lucky
  = (Some {| status_code := 200; xml_events := []; gunzip_events := [] |},
     [HttpGet 1; Sleep 5; HttpGet 2; Sleep 5; HttpGet 3; CloseResponse;
      Sleep 5; HttpGet 4; Sleep 5; HttpGet 5]).
Proof.
  apply (proj1 fetch_retries_until_status_200 fifth_time_lucky 5%nat).
  - lia.
  - reflexivity.
  - reflexivity.
  - intros j Hj.
    destruct j as [|[|[|[|[|j]]]]]; try reflexivity; lia.
Defined.

(** C4, as stated, fails: a first attempt answered 204, a status of the 2xx
    range, is not returned; the response is closed, the fetcher goes on and,
    the other attempts timing out, ends with [None]. *)
Lemma fetch_2xx_counterexample :
  answered_2xx (no_content_then_timeouts 1) = true
  /\ fetch_with_retry script_config no_content_then_timeouts
     = (None,
        [HttpGet 1; CloseResponse; Sleep 5; HttpGet 2; Sleep 5; HttpGet 3;
         Sleep 5; HttpGet 4; Sleep 5; HttpGet 5]).
Proof. vm_compute. auto. Qed.

(** ** The programme key (claim C10) *)

Lemma on_programme_seen_key cfg strptime clock valid elem sh c :
  programme_key elem ∈ seen_programmes sh ->
  let st' := state_of (on_programme cfg strptime clock valid elem (sh, c)) in
  output (fst st') = output sh
  /\ programmes_added (snd st') = programmes_added c.
Proof.
  intros Hin. unfold on_programme. simpl.
  destruct (not_in_valid _ _); [now simpl|].
  destruct (is_dummy_programme _ _); [now simpl|].
  destruct (is_programme_too_far_future _ _ _ _ _) as [[[]|] k1];
    [now simpl| |now simpl].
  simpl. destruct (is_programme_too_far_past _ _ _ _ _) as [[[]|] k2];
    [now simpl| |now simpl].
  simpl. unfold programme_key in Hin.
  rewrite (bool_decide_eq_false_2 _); [now simpl | auto].
Qed.

(** C10. The key is the text of the three attributes joined by
    underscores, so attributes that differ can give one key: channel "a_b"
    with start "c" and channel "a" with start "b_c", with the same stop.
    Whichever of the two programmes comes second in a run is taken for a
    duplicate and is not written. *)
Theorem underscore_key_collision :
  programme_triple programme_a_b <> programme_triple programme_a
  /\ programme_key programme_a_b = programme_key programme_a
  /\ (forall tvg_id start_time stop_time,
        prog_key tvg_id start_time stop_time
        = Str.format tvg_id +:+ "_" +:+ Str.format start_time +:+ "_"
          +:+ Str.format stop_time)
  /\ (forall clock,
        written (output (filter_and_build_epg script_config
                           Strptime.strptime clock
                           [plain_source [EndEvent programme_a_b;
                                          EndEvent programme_a]] ∅))
        = [programme_a_b])
  /\ (forall clock,
        written (output (filter_and_build_epg script_config
                           Strptime.strptime clock
                           [plain_source [EndEvent programme_a];
                            plain_source [EndEvent programme_a_b]] ∅))
        = [programme_a]).
Proof.
  split; [discriminate|]. split; [reflexivity|]. split; [reflexivity|].
  split; intros clock; vm_compute; reflexivity.
Qed.

(** ** The text repair (claim C9) *)

Example fix_xml_issues_sample :
  fix_xml_issues
    (Text.of_string "<tv>R&amp;amp;B</programme>" ++ [0xE9]
     ++ Text.of_string "<programme x>")
  = Text.of_string "<tv>R&amp;B</programme><programme x>".
Proof. vm_compute. reflexivity. Qed.

Example fix_xml_issues_adjacent :
  fix_xml_issues (Text.of_string "a</programme><programme b")
  = Text.of_string "a</programme>" ++ newline
    ++ Text.of_string "<programme b".
Proof. vm_compute. reflexivity. Qed.

(** *** Prefixes *)

Lemma text_startswith_app p t : Text.startswith p (p ++ t) = true.
Proof.
  induction p as [|a p IH]; simpl; [reflexivity|].
  now rewrite Z.eqb_refl, IH.
Qed.

Lemma text_startswith_inv p s :
  Text.startswith p s = true -> exists t, s = p ++ t.
Proof.
  revert s. induction p as [|a p IH]; intros s H; simpl in *.
  - now exists s.
  - destruct s as [|b s]; [discriminate|].
    apply andb_true_iff in H as [Hab H]. apply Z.eqb_eq in Hab as ->.
    destruct (IH s H) as [t ->]. now exists t.
Qed.

Lemma strip_prefix_spec p s rest :
  Text.strip_prefix p s = Some rest <-> s = p ++ rest.
Proof.
  revert s. induction p as [|a p IH]; intros s; simpl.
  - split; [now intros [= ->] | now intros ->].
  - destruct s as [|b s]; [split; discriminate|].
    destruct (Z.eqb_spec a b) as [-> | Hne].
    + rewrite IH. split; [now intros -> | now intros [= ->]].
    + split; [discriminate|]. now intros [= -> _].
Qed.

(** *** [str.replace] collapses the doubled escapes *)

Lemma replace_from_skip old new p t :
  Text.replace_from old new (length p) (p ++ t)
  = Text.replace_from old new 0 t.
Proof. induction p as [|c p IH]; simpl; [now destruct t | exact IH]. Qed.

(** An occurrence at the head: the replacement is emitted and the scan
    resumes after the occurrence. *)
Lemma replace_from_hit old new t :
  old <> [] ->
  Text.replace_from old new 0 (old ++ t)
  = new ++ Text.replace_from old new 0 t.
Proof.
  intros Hold. destruct old as [|a old]; [congruence|].
  change ((a :: old) ++ t) with (a :: (old ++ t)).
  cbn [Text.replace_from].
  change (a :: (old ++ t)) with ((a :: old) ++ t).
  rewrite text_startswith_app.
  replace (length (a :: old) - 1)%nat with (length old) by (simpl; lia).
  now rewrite replace_from_skip.
Qed.

Lemma replace_amp_collapsed s :
  amp_collapsed s (Text.replace amp_amp amp s).
Proof.
  unfold Text.replace.
  remember (length s) as n eqn:Hn.
  revert s Hn. induction n as [n IH] using lt_wf_ind. intros s Hn.
  destruct s as [|c s']; [constructor|].
  destruct (Text.startswith amp_amp (c :: s')) eqn:Hs.
  - destruct (text_startswith_inv _ _ Hs) as [t Ht]. rewrite Ht.
    rewrite replace_from_hit by discriminate.
    apply amp_hit. apply (IH (length t)); [|reflexivity].
    subst n. rewrite Ht, length_app. vm_compute length. lia.
  - cbn [Text.replace_from]. rewrite Hs. apply amp_keep; [exact Hs|].
    apply (IH (length s')); [|reflexivity]. subst n. simpl. lia.
Qed.

Lemma amp_collapsed_unique s a a' :
  amp_collapsed s a -> amp_collapsed s a' -> a = a'.
Proof.
  intros H. revert a'.
  induction H as [|t t' H IH|c t t' Hs H IH]; intros a' H'.
  - remember [] as s eqn:Es.
    destruct H'; [reflexivity | discriminate Es | discriminate Es].
  - remember (amp_amp ++ t) as s eqn:Es.
    destruct H' as [|t0 t0' H0|c0 t0 t0' Hs0 H0].
    + discriminate Es.
    + apply app_inv_head in Es as ->. f_equal. now apply IH.
    + exfalso. rewrite Es, text_startswith_app in Hs0. discriminate Hs0.
  - remember (c :: t) as s eqn:Es.
    destruct H' as [|t0 t0' H0|c0 t0 t0' Hs0 H0].
    + discriminate Es.
    + exfalso. rewrite text_startswith_app in Hs. discriminate Hs.
    + injection Es as -> ->. f_equal. now apply IH.
Qed.

(** *** [re.sub] separates the programmes *)

Lemma match_many_unfold p r s :
  Text.match_here (Text.Many p :: r) s
  = match s with
    | c :: s' =>
        if p c then
          match Text.match_here (Text.Many p :: r) s' with
          | Some rest => Some rest
          | None => Text.match_here r s
          end
        else Text.match_here r s
    | [] => Text.match_here r s
    end.
Proof. destruct s; reflexivity. Qed.

Lemma match_lit l s rest :
  Text.match_here [Text.Lit l] s = Some rest <-> s = l ++ rest.
Proof.
  simpl. destruct (Text.strip_prefix l s) as [r|] eqn:E.
  - apply strip_prefix_spec in E as ->. split.
    + now intros [= ->].
    + intros H. apply app_inv_head in H. now subst.
  - split; [discriminate|]. intros H.
    apply strip_prefix_spec in H. congruence.
Qed.

(** White space, then the opening tag: sound. *)
Lemma match_spaces_open_sound s rest :
  Text.match_here [Text.Many Text.space; Text.Lit open_programme] s
  = Some rest ->
  exists ws,
    forallb Text.space ws = true /\ s = ws ++ open_programme ++ rest.
Proof.
  induction s as [|c s IH]; rewrite match_many_unfold.
  - intros H. apply match_lit in H. now exists [].
  - destruct (Text.space c) eqn:Hc.
    + destruct (Text.match_here _ s) as [r|] eqn:E.
      * intros [= ->]. destruct (IH eq_refl) as (ws & Hws & ->).
        exists (c :: ws). simpl. now rewrite Hc, Hws.
      * intros H. apply match_lit in H. now exists [].
    + intros H. apply match_lit in H. now exists [].
Qed.

(** White space, then the opening tag: complete, and the match ends right
    after the tag. *)
Lemma match_spaces_open_complete ws rest :
  forallb Text.space ws = true ->
  Text.match_here [Text.Many Text.space; Text.Lit open_programme]
    (ws ++ open_programme ++ rest) = Some rest.
Proof.
  induction ws as [|c ws IH]; intros Hws.
  - rewrite match_many_unfold.
    assert (E : Text.match_here [Text.Lit open_programme]
                  ([] ++ open_programme ++ rest) = Some rest)
      by now apply match_lit.
    exact E.
  - simpl in Hws. apply andb_true_iff in Hws as [Hc Hws].
    change ((c :: ws) ++ open_programme ++ rest)
      with (c :: (ws ++ open_programme ++ rest)).
    rewrite match_many_unfold, Hc. now rewrite (IH Hws).
Qed.

Lemma match_separator s rest :
  Text.match_here separator s = Some rest
  <-> exists ws,
        forallb Text.space ws = true
        /\ s = close_programme ++ ws ++ open_programme ++ rest.
Proof.
  unfold separator.
  change (Text.match_here
            (Text.Lit close_programme
               :: [Text.Many Text.space; Text.Lit open_programme]) s)
    with (match Text.strip_prefix close_programme s with
          | Some r =>
              Text.match_here
                [Text.Many Text.space; Text.Lit open_programme] r
          | None => None
          end).
  destruct (Text.strip_prefix close_programme s) as [r|] eqn:E.
  - apply strip_prefix_spec in E as ->. split.
    + intros H. apply match_spaces_open_sound in H as (ws & Hws & ->).
      now exists ws.
    + intros (ws & Hws & H). apply app_inv_head in H as ->.
      now apply match_spaces_open_complete.
  - split; [discriminate|]. intros (ws & Hws & H).
    apply strip_prefix_spec in H. congruence.
Qed.

Lemma sub_from_skip r repl p t :
  Text.sub_from r repl (length p) (p ++ t) = Text.sub_from r repl 0 t.
Proof. induction p as [|c p IH]; simpl; [reflexivity | exact IH]. Qed.

(** A match of one character or more: the replacement is emitted and the
    scan resumes after the match. *)
Lemma sub_from_match r repl s m rest :
  s = m ++ rest -> m <> [] ->
  Text.match_here r s = Some rest ->
  Text.sub_from r repl 0 s = repl ++ Text.sub_from r repl 0 rest.
Proof.
  intros -> Hm H. destruct m as [|c m]; [congruence|].
  change ((c :: m) ++ rest) with (c :: (m ++ rest)) in *.
  cbn [Text.sub_from]. rewrite H.
  replace (length (c :: (m ++ rest)) - length rest)%nat
    with (S (length m)).
  - now rewrite sub_from_skip.
  - simpl. rewrite length_app. lia.
Qed.

Lemma close_programme_not_empty ws :
  close_programme ++ ws ++ open_programme <> [].
Proof. discriminate. Qed.

Lemma sub_separator_separated s :
  programmes_separated s
    (Text.sub separator (close_programme ++ newline ++ open_programme) s).
Proof.
  unfold Text.sub.
  remember (length s) as n eqn:Hn.
  revert s Hn. induction n as [n IH] using lt_wf_ind. intros s Hn.
  destruct s as [|c s']; [constructor|].
  destruct (Text.match_here separator (c :: s')) as [rest|] eqn:Hm.
  - pose proof Hm as Hm'.
    apply match_separator in Hm' as (ws & Hws & Hs).
    rewrite (sub_from_match separator _ (c :: s')
               (close_programme ++ ws ++ open_programme) rest).
    + rewrite Hs, <- !app_assoc. apply sep_hit; [exact Hws|].
      apply (IH (length rest)); [|reflexivity].
      subst n. rewrite Hs, !length_app. vm_compute (length close_programme).
      lia.
    + now rewrite Hs, <- !app_assoc.
    + apply close_programme_not_empty.
    + exact Hm.
  - cbn [Text.sub_from]. rewrite Hm. apply sep_keep.
    + intros ws rest Hws Heq.
      assert (Text.match_here separator (c :: s') = Some rest) as Hr
        by (apply match_separator; now exists ws).
      congruence.
    + apply (IH (length s')); [|reflexivity]. subst n. simpl. lia.
Qed.

Lemma spaces_then_open_unique ws ws' t t' :
  forallb Text.space ws = true -> forallb Text.space ws' = true ->
  ws ++ open_programme ++ t = ws' ++ open_programme ++ t' ->
  ws = ws' /\ t = t'.
Proof.
  revert ws'. induction ws as [|c ws IH]; intros [|c' ws'] H H' E;
    cbn [app forallb] in H, H', E.
  - apply app_inv_head in E as ->. auto.
  - change open_programme with (0x3C :: Text.of_string "programme") in E.
    injection E as <- _. discriminate H'.
  - change open_programme with (0x3C :: Text.of_string "programme") in E.
    injection E as -> _. discriminate H.
  - injection E as -> E.
    apply andb_true_iff in H as [_ H], H' as [_ H'].
    destruct (IH ws' H H' E) as [-> ->]. auto.
Qed.

Lemma programmes_separated_unique s b b' :
  programmes_separated s b -> programmes_separated s b' -> b = b'.
Proof.
  intros H. revert b'.
  induction H as [|ws t t' Hws H IH|c t t' Hno H IH]; intros b' H'.
  - remember [] as s eqn:Es.
    destruct H'; [reflexivity | discriminate Es | discriminate Es].
  - remember (close_programme ++ ws ++ open_programme ++ t) as s eqn:Es.
    destruct H' as [|ws0 t0 t0' Hws0 H0|c0 t0 t0' Hno0 H0].
    + discriminate Es.
    + apply app_inv_head in Es.
      destruct (spaces_then_open_unique _ _ _ _ Hws0 Hws Es) as [-> ->].
      do 3 f_equal. now apply IH.
    + exfalso. now apply (Hno0 ws t Hws).
  - remember (c :: t) as s eqn:Es.
    destruct H' as [|ws0 t0 t0' Hws0 H0|c0 t0 t0' Hno0 H0].
    + discriminate Es.
    + exfalso. apply (Hno ws0 t0 Hws0). now rewrite Es.
    + injection Es as -> ->. f_equal. now apply IH.
Qed.

(** *** [re.sub] strips what is not printable *)

Lemma sub_not_printable s :
  Text.sub [Text.Any not_printable] [] s = List.filter printable s.
Proof.
  unfold Text.sub. induction s as [|c s IH]; [reflexivity|].
  cbn [Text.sub_from Text.match_here List.filter]. unfold not_printable at 1.
  destruct (printable c); simpl negb; cbv iota.
  - now rewrite IH.
  - replace (length (c :: s) - length s)%nat with 1%nat by (simpl; lia).
    simpl. exact IH.
Qed.

(** The printable characters are the 95 of 0x20-0x7E and the three
    controls; none of them is above 0x7E. *)
Lemma printable_spec c :
  printable c = true
  <-> (0x20 <= c <= 0x7E) \/ c = 0x0A \/ c = 0x0D \/ c = 0x09.
Proof.
  unfold printable, Text.between.
  rewrite !orb_true_iff, andb_true_iff, !Z.leb_le, !Z.eqb_eq. tauto.
Qed.

Lemma fix_xml_issues_stages s :
  fix_xml_issues s
  = List.filter printable
      (Text.sub separator (close_programme ++ newline ++ open_programme)
         (Text.replace amp_amp amp s)).
Proof. unfold fix_xml_issues. now rewrite sub_not_printable. Qed.

(** C9, as amended.  A text is any list of code points.  The result of the
    repair is determined by three passes, in this order: going from the
    left, every "&amp;amp;" becomes "&amp;"; then wherever [</programme>]
    is followed, after white space only or none at all, by [<programme],
    what lies between the two becomes one newline, so a newline is inserted
    between tags that touch and white space already there is replaced by
    it; then every character outside 0x20-0x7E other than newline, carriage
    return and tab is removed, and the others are kept in their order. *)
Theorem fix_xml_issues_repairs :
  forall s : Text.text,
    (exists a b,
        amp_collapsed s a /\ programmes_separated a b
        /\ fix_xml_issues s = List.filter printable b)
    /\ (forall a b,
          amp_collapsed s a -> programmes_separated a b ->
          fix_xml_issues s = List.filter printable b)
    /\ (forall c,
          In c (fix_xml_issues s) ->
          (0x20 <= c <= 0x7E) \/ c = 0x0A \/ c = 0x0D \/ c = 0x09)
    /\ (forall c,
          printable c = true
          <-> (0x20 <= c <= 0x7E) \/ c = 0x0A \/ c = 0x0D \/ c = 0x09).
Proof.
  intros s. rewrite fix_xml_issues_stages.
  pose proof (replace_amp_collapsed s) as Ha.
  pose proof (sub_separator_separated (Text.replace amp_amp amp s)) as Hb.
  split; [|split; [|split]].
  - eauto.
  - intros a b Ha' Hb'.
    rewrite <- (amp_collapsed_unique _ _ _ Ha Ha') in Hb'.
    now rewrite (programmes_separated_unique _ _ _ Hb Hb').
  - intros c Hc. apply List.filter_In in Hc as [_ Hc].
    now apply printable_spec.
  - exact printable_spec.
Qed.

Lemma fix_xml_issues_repairs_witness :
  amp_collapsed amp_amp amp
  /\ programmes_separated amp amp
  /\ fix_xml_issues amp_amp = List.filter printable amp.
Proof.
  assert (Ha : amp_collapsed amp_amp amp).
  { rewrite <- (app_nil_r amp_amp), <- (app_nil_r amp).
    apply amp_hit. constructor. }
  assert (Hb : programmes_separated amp amp)
    by (repeat (apply sep_keep; [intros ws rest _ E; discriminate E|]);
        constructor).
  split; [exact Ha|]. split; [exact Hb|].
  exact (proj1 (proj2 (fix_xml_issues_repairs amp_amp)) _ _ Ha Hb).
Defined.

(** C9, as stated, fails: between two programme elements on separate,
    indented lines no newline is missing and every character is printable,
    yet the repair removes the indentation. *)
Lemma fix_xml_issues_counterexample :
  fix_xml_issues indented_programmes
    <> fix_xml_issues_adjacent_only indented_programmes
  /\ fix_xml_issues_adjacent_only indented_programmes = indented_programmes
  /\ fix_xml_issues indented_programmes
     = Text.of_string "<programme a='1'></programme>" ++ newline
       ++ Text.of_string "<programme a='2'></programme>".
Proof.
  split; [|split].
  - vm_compute. discriminate.
  - vm_compute. reflexivity.
  - vm_compute. reflexivity.
Qed.

(** *** The repair on sample texts *)

Example fix_xml_issues_triple_escape :
  fix_xml_issues (Text.of_string "&amp;amp;amp;")
  = Text.of_string "&amp;amp;".
Proof. vm_compute. reflexivity. Qed.

(** White space above 255 between the tags is replaced, and a CJK
    ideograph is removed. *)
Example fix_xml_issues_wide_characters :
  fix_xml_issues
    (close_programme ++ [em_space; ideographic_space] ++ open_programme
     ++ [cjk_middle])
  = close_programme ++ newline ++ open_programme.
Proof. vm_compute. reflexivity. Qed.

Example fix_xml_issues_latin1_space :
  fix_xml_issues (close_programme ++ [0xA0] ++ open_programme)
  = close_programme ++ newline ++ open_programme.
Proof. vm_compute. reflexivity. Qed.

Example fix_xml_issues_second_close_tag :
  fix_xml_issues
    (Text.of_string "</programme> </programme>" ++ [0x09]
     ++ open_programme)
  = Text.of_string "</programme> </programme>" ++ newline
    ++ open_programme.
Proof. vm_compute. reflexivity. Qed.

Example fix_xml_issues_strip_then_escape :
  fix_xml_issues (amp ++ [0] ++ Text.of_string "amp;") = amp_amp.
Proof. vm_compute. reflexivity. Qed.

(** * Further properties of the code *)

Example findall_extinf : findall_tvg_id extinf_line = ["bbc.one"].
Proof. vm_compute. reflexivity. Qed.

Example findall_two_ids :
  findall_tvg_id ("TVG-ID=" +:+ dquote +:+ "A" +:+ dquote +:+ " tvg-ID="
                  +:+ dquote +:+ "b" +:+ dquote) = ["A"; "b"].
Proof. vm_compute. reflexivity. Qed.

Example findall_empty_id :
  findall_tvg_id ("tvg-id=" +:+ dquote +:+ dquote) = [].
Proof. vm_compute. reflexivity. Qed.

Example findall_unclosed :
  findall_tvg_id ("tvg-id=" +:+ dquote +:+ "abc") = [].
Proof. vm_compute. reflexivity. Qed.

Example findall_key_inside_id :
  findall_tvg_id ("tvg-id=" +:+ dquote +:+ "tvg-id=" +:+ dquote +:+ "x"
                  +:+ dquote) = ["tvg-id="].
Proof. vm_compute. reflexivity. Qed.

Example strip_sample :
  strip (" " +:+ String (ascii_of_nat 9) " a b " +:+ nl) = "a b".
Proof. vm_compute. reflexivity. Qed.

(** ** What is written, and why *)

(** An end event that writes is a channel or a programme that no filter
    matched; otherwise the output is left alone. *)
Lemma on_end_event_written cfg strptime clock valid elem sh c :
  let st' := state_of (on_end_event cfg strptime clock valid elem (sh, c)) in
  output (fst st') = output sh
  \/ (output (fst st') = output sh ++ [Serialized elem]
      /\ ((is_channel elem = true
           /\ not_in_valid valid (get elem "id") = false)
          \/ (is_programme elem = true
              /\ not_in_valid valid (get elem "channel") = false
              /\ is_dummy_programme cfg (get elem "channel") = false))).
Proof.
  unfold on_end_event, is_channel, is_programme.
  destruct (String.eqb (tag elem) "channel") eqn:Hc.
  - cbv beta iota delta [state_of].
    destruct (on_channel_effect valid elem sh c) as [-> | (Hv & _ & ->)];
      [now left|]. right. simpl. auto.
  - destruct (String.eqb (tag elem) "programme") eqn:Hp; [|now left].
    unfold on_programme.
    destruct (not_in_valid valid (get elem "channel")) eqn:Hv; [now left|].
    destruct (is_dummy_programme cfg (get elem "channel")) eqn:Hd;
      [now left|].
    destruct (is_programme_too_far_future _ _ _ _ _) as [[[]|] k1];
      [now left| |now left].
    simpl. destruct (is_programme_too_far_past _ _ _ _ _) as [[[]|] k2];
      [now left| |now left].
    simpl. destruct (bool_decide _); [|now left].
    right. simpl. auto.
Qed.

Lemma written_passed_filters cfg strptime clock valid srcs e :
  In e (written (output (filter_and_build_epg cfg strptime clock srcs valid)))
  -> passed_filters cfg valid e.
Proof.
  revert e.
  unfold filter_and_build_epg, write_xml_footer, write_xml_header. simpl.
  assert (H : forall e,
             In e (written (output
                     (process_all cfg strptime clock srcs valid
                        (write (Text ("<tv>" +:+ nl))
                           (write (Text xml_declaration) initial_shared)))))
             -> passed_filters cfg valid e).
  { apply (process_all_preserves_shared cfg strptime clock valid
             (fun sh => forall e, In e (written (output sh)) ->
                                  passed_filters cfg valid e)).
    - intros elem sh c IH e.
      destruct (on_end_event_written cfg strptime clock valid elem sh c)
        as [-> | [-> Hw]]; [apply IH|].
      rewrite written_app. simpl. intros He.
      apply in_app_or in He as [He | [<- | []]]; [now apply IH|].
      destruct Hw as [[Hc Hv] | (Hp & Hv & Hd)]; split; intros Ht; auto.
      + rewrite (tags_differ _ Hc) in Ht. discriminate.
      + rewrite (tags_differ _ Ht) in Hp. discriminate.
    - intros f sh IH. exact IH.
    - simpl. intros e []. }
  intros e He. apply H. rewrite written_app in He. simpl in He.
  now rewrite app_nil_r in He.
Qed.

Lemma allowed_in_valid valid tvg_id :
  valid ≠ ∅ -> not_in_valid valid tvg_id = false ->
  exists s, tvg_id = Some s /\ s ∈ valid.
Proof.
  intros Hne H. unfold not_in_valid in H.
  rewrite (bool_decide_eq_true_2 _ Hne) in H. simpl in H.
  destruct tvg_id as [s|]; [|discriminate].
  exists s. split; [reflexivity|].
  apply bool_decide_eq_false in H. destruct (decide (s ∈ valid)); tauto.
Qed.

(** X1. With a non-empty allow-list, every channel element of the output
    carries an [id] that is in the allow-list and every programme element a
    [channel] that is in it; an element without the attribute is never
    written. *)
Theorem output_only_allow_listed cfg strptime clock srcs valid e :
  valid ≠ ∅ ->
  In e (written (output (filter_and_build_epg cfg strptime clock srcs valid)))
  ->
  (is_channel e = true -> exists s, get e "id" = Some s /\ s ∈ valid)
  /\ (is_programme e = true ->
      exists s, get e "channel" = Some s /\ s ∈ valid).
Proof.
  intros Hne He.
  destruct (written_passed_filters _ _ _ _ _ _ He) as [Hc Hp].
  split; intros Ht.
  - apply allowed_in_valid; auto.
  - apply allowed_in_valid; [auto|]. now apply Hp.
Qed.

Lemma output_only_allow_listed_witness :
  exists s, get (elem_channel "one") "id" = Some s
            /\ s ∈ ({[ "one" ]} : gset string).
Proof.
  refine (proj1 (output_only_allow_listed script_config Strptime.strptime
                   sample_clock [source_one; source_two] {[ "one" ]}
                   (elem_channel "one") _ _) _).
  - intros H. apply (f_equal (fun s : gset string => bool_decide ("one" ∈ s)))
      in H. vm_compute in H. discriminate H.
  - vm_compute. left. reflexivity.
  - reflexivity.
Defined.

(** X2. With dummy suppression switched on, no programme element of the
    output has a channel identifier that contains "dummy" in any mix of
    upper and lower case. *)
Theorem no_dummy_programme_in_output cfg strptime clock srcs valid e s :
  skip_dummy_programs cfg = true ->
  In e (written (output (filter_and_build_epg cfg strptime clock srcs valid)))
  ->
  is_programme e = true -> get e "channel" = Some s ->
  ~ exists pre mid post, s = pre +:+ mid +:+ post /\ Str.lower mid = "dummy".
Proof.
  intros Hskip He Hp Hs (pre & mid & post & Hdec & Hlow).
  destruct (written_passed_filters _ _ _ _ _ _ He) as [_ Hf].
  destruct (Hf Hp) as [_ Hd].
  assert (is_dummy_programme cfg (get e "channel") = true) as Ht.
  { apply is_dummy_programme_spec. split; [exact Hskip|].
    exists s, pre, mid, post. auto. }
  congruence.
Qed.

Lemma no_dummy_programme_in_output_witness :
  ~ exists pre mid post,
      "one" = pre +:+ mid +:+ post /\ Str.lower mid = "dummy".
Proof.
  apply (no_dummy_programme_in_output strict_config Strptime.strptime
           sample_clock [source_one] ∅
           (elem_programme "one" "20240101100000" "20240101110000") "one").
  - reflexivity.
  - vm_compute. right. left. reflexivity.
  - reflexivity.
  - reflexivity.
Defined.

(** ** The statistics *)

(** What one end event does to the statistics: it counts the element in its
    total and touches no other entry. *)
Lemma on_end_event_stats cfg strptime clock valid elem st :
  let s := run_stats (fst st) in
  let s' :=
    run_stats (fst (state_of (on_end_event cfg strptime clock valid elem st)))
  in
  total_channels_in_sources s'
  = (total_channels_in_sources s + if is_channel elem then 1 else 0)%nat
  /\ total_programmes_in_sources s'
     = (total_programmes_in_sources s + if is_programme elem then 1 else 0)%nat
  /\ channels_filtered_by_tvg_id s' = channels_filtered_by_tvg_id s
  /\ programmes_filtered_by_tvg_id s' = programmes_filtered_by_tvg_id s
  /\ programmes_filtered_by_future s' = programmes_filtered_by_future s
  /\ programmes_filtered_by_past s' = programmes_filtered_by_past s
  /\ programmes_filtered_by_dummy s' = programmes_filtered_by_dummy s.
Proof.
  destruct st as [sh c]. unfold on_end_event, is_channel, is_programme.
  destruct (String.eqb (tag elem) "channel") eqn:Hc.
  - assert (Hp : String.eqb (tag elem) "programme" = false)
      by (apply String.eqb_eq in Hc; now rewrite Hc).
    rewrite Hp. unfold on_channel. case_filters; simpl; repeat split; lia.
  - destruct (String.eqb (tag elem) "programme") eqn:Hp.
    + unfold on_programme. case_filters; simpl; repeat split; lia.
    + simpl. repeat split; lia.
Qed.

(** Where the cut-offs are datetimes, the loop body does not raise. *)
Lemma on_end_event_continues cfg strptime clock valid elem st :
  cutoffs_are_datetimes cfg clock ->
  exists st', on_end_event cfg strptime clock valid elem st = Continue st'.
Proof.
  intros Hc. destruct st as [sh c]. unfold on_end_event.
  destruct (String.eqb (tag elem) "channel"); [eexists; reflexivity|].
  destruct (String.eqb (tag elem) "programme"); [|eexists; reflexivity].
  unfold on_programme.
  destruct (not_in_valid _ _); [eexists; reflexivity|].
  destruct (is_dummy_programme _ _); [eexists; reflexivity|].
  cbn [ticks with_stats].
  rewrite too_far_future_eval by apply Hc.
  assert (Hf : forall p k,
             future_cutoff_overflows p (days_future cfg) (clock k) = false).
  { intros p k. unfold future_cutoff_overflows, reads_clock.
    destruct (Z.ltb_spec 0 (days_future cfg)) as [Hpos | Hneg];
      [|reflexivity].
    destruct (Hc k) as (_ & Hmax & _). specialize (Hmax Hpos).
    apply Z.ltb_ge in Hmax. rewrite Hmax. apply andb_false_r. }
  assert (Hp : forall p k,
             past_cutoff_overflows p (days_past cfg) (clock k) = false).
  { intros p k. unfold past_cutoff_overflows, reads_clock.
    destruct (Z.ltb_spec 0 (days_past cfg)) as [Hpos | Hneg];
      [|reflexivity].
    destruct (Hc k) as (_ & _ & Hmin). specialize (Hmin Hpos).
    apply Z.ltb_ge in Hmin. rewrite Hmin. apply andb_false_r. }
  rewrite Hf. destruct (starts_beyond _ _ _); [eexists; reflexivity|].
  cbn [ticks with_ticks].
  rewrite too_far_past_eval by apply Hc. rewrite Hp.
  destruct (stops_before _ _ _); [eexists; reflexivity|].
  destruct (bool_decide _); eexists; reflexivity.
Qed.

Lemma iterate_totals cfg strptime clock valid items st :
  cutoffs_are_datetimes cfg clock ->
  let s := run_stats (fst st) in
  let s' := run_stats
              (fst (snd (iterate cfg strptime clock valid items st))) in
  total_channels_in_sources s'
  = (total_channels_in_sources s
     + length (channels_of (elements_before_fault items)))%nat
  /\ total_programmes_in_sources s'
     = (total_programmes_in_sources s
        + length (programmes_of (elements_before_fault items)))%nat.
Proof.
  intros Hc. revert st.
  induction items as [|[elem| |] items IH]; intros st; simpl;
    try (split; lia).
  destruct (on_end_event_stats cfg strptime clock valid elem st)
    as (E1 & E2 & _).
  destruct (on_end_event_continues cfg strptime clock valid elem st Hc)
    as [st' E]. rewrite E in *.
  destruct (IH st') as [I1 I2].
  simpl in I1, I2, E1, E2. rewrite I1, I2, E1, E2.
  unfold channels_of, programmes_of. simpl.
  destruct (is_channel elem), (is_programme elem); simpl; split; lia.
Qed.

Lemma process_epg_source_totals cfg strptime clock valid src sh :
  cutoffs_are_datetimes cfg clock ->
  let s := run_stats sh in
  let s' := run_stats (process_epg_source cfg strptime clock src valid sh) in
  total_channels_in_sources s'
  = (total_channels_in_sources s
     + length (channels_of (document_of cfg src)))%nat
  /\ total_programmes_in_sources s'
     = (total_programmes_in_sources s
        + length (programmes_of (document_of cfg src)))%nat.
Proof.
  intros Hc. unfold process_epg_source, document_of, events_for.
  destruct (fst (fetch_with_retry cfg (network src))) as [resp|];
    [|simpl; split; lia].
  set (items := if Str.endswith ".gz" (url src) then gunzip_events resp
                else xml_events resp).
  pose proof (iterate_totals cfg strptime clock valid items
                (sh, counters_zero) Hc) as H.
  unfold stream_parse_epg.
  destruct (iterate _ _ _ _ _ _) as [[] [sh' c]]; simpl in *; exact H.
Qed.

(** X3. When the cut-offs of the window filters are datetimes at every
    reading of the clock, so that no filter raises, at the end of a run
    [total_channels_in_sources] is the number of channel elements, and
    [total_programmes_in_sources] the number of programme elements, that
    the fetched documents hold before their first fault: every one is
    counted, written or not, also in a source that a fault of the stream
    cuts short. *)
Theorem totals_count_every_element cfg strptime clock srcs valid :
  cutoffs_are_datetimes cfg clock ->
  let s := run_stats (filter_and_build_epg cfg strptime clock srcs valid) in
  let all := concat (map (document_of cfg) srcs) in
  total_channels_in_sources s = length (channels_of all)
  /\ total_programmes_in_sources s = length (programmes_of all).
Proof.
  intros Hc.
  unfold filter_and_build_epg, write_xml_footer, write_xml_header. simpl.
  set (sh0 := write _ (write _ initial_shared)).
  assert (H : forall sh,
             let s' := run_stats (process_all cfg strptime clock srcs valid sh)
             in
             total_channels_in_sources s'
             = (total_channels_in_sources (run_stats sh)
                + length (channels_of (concat (map (document_of cfg) srcs))))%nat
             /\ total_programmes_in_sources s'
                = (total_programmes_in_sources (run_stats sh)
                   + length (programmes_of
                               (concat (map (document_of cfg) srcs))))%nat).
  { unfold process_all. induction srcs as [|src srcs IH]; intros sh; simpl.
    - split; lia.
    - destruct (IH (process_epg_source cfg strptime clock src valid sh))
        as [I1 I2].
      destruct (process_epg_source_totals cfg strptime clock valid src sh
                  Hc) as [E1 E2].
      simpl in *. rewrite I1, I2, E1, E2.
      unfold channels_of, programmes_of.
      rewrite !List.filter_app, !length_app. split; lia. }
  destruct (H sh0) as [H1 H2]. simpl in H1, H2. auto.
Qed.

(** Two sources of one channel and one programme each, with windows of
    seven days and one day around noon of 2024-01-01. *)
Lemma totals_count_every_element_witness :
  let s := run_stats (filter_and_build_epg strict_config Strptime.strptime
                        sample_clock [source_one; source_two] {[ "one" ]})
  in
  total_channels_in_sources s = 2%nat
  /\ total_programmes_in_sources s = 2%nat.
Proof.
  apply (totals_count_every_element strict_config Strptime.strptime
           sample_clock [source_one; source_two] {[ "one" ]}).
  intros k. vm_compute. repeat split; intros; discriminate.
Defined.

Lemma on_end_event_accounting cfg strptime clock valid elem sh c :
  let st' := state_of (on_end_event cfg strptime clock valid elem (sh, c)) in
  (filtered_locally (snd st')
   + length (written_programmes (output (fst st')))
   <= filtered_locally c + length (written_programmes (output sh))
      + if is_programme elem then 1 else 0)%nat
  /\ (channels_filtered (snd st')
      + length (written_channels (output (fst st')))
      <= channels_filtered c + length (written_channels (output sh))
         + if is_channel elem then 1 else 0)%nat.
Proof.
  unfold on_end_event.
  destruct (String.eqb (tag elem) "channel") eqn:Hc.
  - assert (Hc' : is_channel elem = true) by exact Hc.
    pose proof (tags_differ elem Hc') as Hp. rewrite Hc', Hp.
    unfold on_channel, filtered_locally.
    case_filters; cbn [state_of fst snd output
      write add_seen_channel with_stats channels_filtered
      incr_channels_filtered incr_channels_added programmes_filtered_tvg
      programmes_skipped_future programmes_skipped_past
      programmes_skipped_dummy];
      rewrite ?written_programmes_snoc, ?written_channels_snoc, ?Hc', ?Hp,
        ?length_app; simpl length; split; lia.
  - assert (Hc' : is_channel elem = false) by exact Hc. rewrite Hc'.
    destruct (String.eqb (tag elem) "programme") eqn:Hp.
    + assert (Hp' : is_programme elem = true) by exact Hp. rewrite Hp'.
      unfold on_programme, filtered_locally.
      case_filters; cbn [state_of fst snd output
        write add_seen_programme with_stats with_ticks channels_filtered
        incr_prog_count incr_programmes_filtered_tvg
        incr_programmes_skipped_dummy incr_programmes_skipped_future
        incr_programmes_skipped_past incr_programmes_added
        programmes_filtered_tvg programmes_skipped_future
        programmes_skipped_past programmes_skipped_dummy];
        rewrite ?written_programmes_snoc, ?written_channels_snoc, ?Hc', ?Hp',
          ?length_app; simpl length; split; lia.
    + simpl. split; lia.
Qed.

Lemma written_programmes_text out s :
  written_programmes (out ++ [Text s]) = written_programmes out.
Proof.
  unfold written_programmes. rewrite written_app. simpl.
  now rewrite app_nil_r.
Qed.

Lemma written_channels_text out s :
  written_channels (out ++ [Text s]) = written_channels out.
Proof.
  unfold written_channels. rewrite written_app. simpl.
  now rewrite app_nil_r.
Qed.

(** X4. At the end of a run the programmes counted as filtered (by
    identifier, future, past and dummy together) and the programmes written
    never exceed [total_programmes_in_sources], and the channels counted as
    filtered and the channels written never exceed
    [total_channels_in_sources]: the share of filtered programmes that the
    report prints is at most 100 percent. *)
Theorem filtered_and_written_within_totals cfg strptime clock srcs valid :
  let sh := filter_and_build_epg cfg strptime clock srcs valid in
  (programmes_filtered_total (run_stats sh)
   + length (written_programmes (output sh))
   <= total_programmes_in_sources (run_stats sh))%nat
  /\ (channels_filtered_by_tvg_id (run_stats sh)
      + length (written_channels (output sh))
      <= total_channels_in_sources (run_stats sh))%nat.
Proof.
  unfold filter_and_build_epg, write_xml_footer.
  set (P := fun sh : shared =>
    (programmes_filtered_total (run_stats sh)
     + length (written_programmes (output sh))
     <= total_programmes_in_sources (run_stats sh))%nat
    /\ (channels_filtered_by_tvg_id (run_stats sh)
        + length (written_channels (output sh))
        <= total_channels_in_sources (run_stats sh))%nat).
  set (Q := fun st : shared * counters =>
    (programmes_filtered_total (run_stats (fst st)) + filtered_locally (snd st)
     + length (written_programmes (output (fst st)))
     <= total_programmes_in_sources (run_stats (fst st)))%nat
    /\ (channels_filtered_by_tvg_id (run_stats (fst st))
        + channels_filtered (snd st)
        + length (written_channels (output (fst st)))
        <= total_channels_in_sources (run_stats (fst st)))%nat).
  assert (H : P (process_all cfg strptime clock srcs valid
                   (write_xml_header initial_shared))).
  { apply (process_all_preserves cfg strptime clock valid P Q).
    - intros sh [H1 H2]. unfold Q, filtered_locally. simpl. split; lia.
    - intros elem [sh c] [H1 H2]. unfold Q.
      destruct (on_end_event_stats cfg strptime clock valid elem (sh, c))
        as (T1 & T2 & F1 & F2 & F3 & F4 & F5).
      destruct (on_end_event_accounting cfg strptime clock valid elem sh c)
        as [A1 A2].
      unfold programmes_filtered_total in *. simpl in *.
      rewrite T1, T2, F1, F2, F3, F4, F5. split; lia.
    - intros sh c [H1 H2]. unfold P, programmes_filtered_total,
        filtered_locally in *. simpl in *. split; split; lia.
    - unfold P. simpl. split; lia. }
  unfold P in H. cbn [write output run_stats].
  now rewrite written_programmes_text, written_channels_text.
Qed.

(** ** The seen sets and the output *)

Lemma seen_sets_mirror_output cfg strptime clock srcs valid :
  let sh := filter_and_build_epg cfg strptime clock srcs valid in
  seen_channels sh
  = list_to_set (map channel_id (written_channels (output sh)))
  /\ seen_programmes sh
     = list_to_set (map programme_key (written_programmes (output sh))).
Proof.
  unfold filter_and_build_epg, write_xml_footer.
  cbn [write output seen_channels seen_programmes].
  rewrite written_programmes_text, written_channels_text.
  apply (process_all_preserves_shared cfg strptime clock valid
           (fun sh =>
              seen_channels sh
              = list_to_set (map channel_id (written_channels (output sh)))
              /\ seen_programmes sh
                 = list_to_set
                     (map programme_key (written_programmes (output sh))))).
  - intros elem sh c [H1 H2]. unfold on_end_event.
    destruct (String.eqb (tag elem) "channel") eqn:Hc.
    + assert (Hc' : is_channel elem = true) by exact Hc.
      pose proof (tags_differ elem Hc') as Hp.
      cbv beta iota delta [state_of].
      destruct (on_channel_effect valid elem sh c) as [-> | (_ & _ & ->)];
        [now split|].
      cbn [write add_seen_channel with_stats output seen_channels
           seen_programmes].
      rewrite written_channels_snoc, written_programmes_snoc, Hc', Hp,
        app_nil_r, map_app.
      cbn [map]. rewrite list_to_set_snoc_L, <- H1.
      split; [apply (comm_L (∪)) | exact H2].
    + destruct (String.eqb (tag elem) "programme") eqn:Hp; [|now split].
      assert (Hc' : is_channel elem = false) by exact Hc.
      assert (Hp' : is_programme elem = true) by exact Hp.
      destruct (on_programme_effect cfg strptime clock valid elem sh c)
        as (k & [-> | (_ & _ & ->)]); [now split|].
      cbn [write add_seen_programme with_stats with_ticks output
           seen_channels seen_programmes].
      rewrite written_channels_snoc, written_programmes_snoc, Hc', Hp',
        app_nil_r, map_app.
      cbn [map]. rewrite list_to_set_snoc_L, <- H2.
      split; [exact H1 | apply (comm_L (∪))].
  - intros f sh H. exact H.
  - split; reflexivity.
Qed.

(** X5. At the end of a run the set of seen channels is exactly the set of
    identifiers of the channel elements in the output, and its size is their
    number; likewise the set of seen programme keys and the programme
    elements.  So the numbers the report prints as channels and programmes
    in output are the numbers of elements written. *)
Theorem seen_set_sizes_count_the_output cfg strptime clock srcs valid :
  let sh := filter_and_build_epg cfg strptime clock srcs valid in
  (forall id, id ∈ seen_channels sh
              <-> exists e, In e (written_channels (output sh))
                            /\ channel_id e = id)
  /\ (forall key, key ∈ seen_programmes sh
                  <-> exists e, In e (written_programmes (output sh))
                                /\ programme_key e = key)
  /\ size (seen_channels sh) = length (written_channels (output sh))
  /\ size (seen_programmes sh) = length (written_programmes (output sh)).
Proof.
  intros sh.
  destruct (seen_sets_mirror_output cfg strptime clock srcs valid)
    as [H1 H2].
  destruct (dedup_invariant_run cfg strptime clock srcs valid)
    as [N1 _ N2 _].
  fold sh in H1, H2, N1, N2.
  split; [|split; [|split]].
  - intros id. rewrite H1, elem_of_list_to_set, list_elem_of_In, in_map_iff.
    split; intros (e & ? & ?); exists e; auto.
  - intros key. rewrite H2, elem_of_list_to_set, list_elem_of_In, in_map_iff.
    split; intros (e & ? & ?); exists e; auto.
  - rewrite H1, size_list_to_set by exact N1. apply length_map.
  - rewrite H2, size_list_to_set by exact N2. apply length_map.
Qed.

(** ** The fetcher, for any configuration and any network *)

(** X6. Whatever the configuration and the network, a call of the fetcher
    makes some number [n] of requests, at most [max_retries], numbered from
    1 in order.  Its effects are, attempt by attempt and in this order: the
    request; the close of the response when the attempt was answered with a
    status other than 200, and of no other response; a wait of
    [retry_delay] seconds when another request follows, and none after the
    last request.  Every attempt before the last failed.  A response that
    is returned is the answer to the last request and has status 200; and
    the fetcher gives up only after [max_retries] requests, all of which
    failed. *)
Theorem fetch_discipline cfg net :
  let res := fetch_with_retry cfg net in
  exists n,
    (n <= max_retries cfg)%nat
    /\ snd res
       = flat_map
           (fun j =>
              [HttpGet j]
              ++ (if closed_attempt (net j) then [CloseResponse] else [])
              ++ (if (j <? n)%nat then [Sleep (retry_delay cfg)] else []))
           (seq 1 n)
    /\ (forall j, (1 <= j < n)%nat -> succeeded (net j) = false)
    /\ (forall r, fst res = Some r ->
                  (1 <= n)%nat /\ net n = Responded r
                  /\ status_code r = 200)
    /\ (fst res = None ->
        n = max_retries cfg
        /\ forall j, (1 <= j <= n)%nat -> succeeded (net j) = false).
Proof.
  destruct (fetch_with_retry_trace cfg net) as (n & Hle & Htr & Hf & Hres).
  exists n. split; [exact Hle|]. split; [exact Htr|]. split; [exact Hf|].
  destruct (fst (fetch_with_retry cfg net)) as [r|].
  - split; [|discriminate]. now intros r' [= <-].
  - split; [discriminate|]. now intros _.
Qed.

(** Four failures of four kinds, then an answer. *)
Example fetch_discipline_sample :
  fetch_with_retry strict_config fifth_time_lucky
  = (Some {| status_code := 200; xml_events := []; gunzip_events := [] |},
     [HttpGet 1; Sleep 5; HttpGet 2; Sleep 5; HttpGet 3; CloseResponse;
      Sleep 5; HttpGet 4; Sleep 5; HttpGet 5]).
Proof. vm_compute. reflexivity. Qed.

(** ** A source that cannot be fetched *)

(** X7. A source for which none of the [max_retries] attempts is answered
    with status 200 contributes nothing: the sets, the statistics and the
    output are as before, and the run is the run without that source. *)
Theorem failed_fetch_contributes_nothing cfg strptime clock valid src :
  (forall j, (1 <= j <= max_retries cfg)%nat ->
             succeeded (network src j) = false) ->
  (forall sh, process_epg_source cfg strptime clock src valid sh = sh)
  /\ (forall pre post sh,
        process_all cfg strptime clock (pre ++ src :: post) valid sh
        = process_all cfg strptime clock (pre ++ post) valid sh).
Proof.
  intros Hfail.
  assert (H : forall sh,
             process_epg_source cfg strptime clock src valid sh = sh).
  { intros sh. unfold process_epg_source, fetch_with_retry.
    fold (fetch_with_retry cfg (network src)).
    now rewrite (fetch_with_retry_exhausted cfg (network src) Hfail). }
  split; [exact H|]. intros pre post sh.
  rewrite !process_all_app. unfold process_all at 1. simpl.
  now rewrite H.
Qed.

Lemma failed_fetch_contributes_nothing_witness :
  process_all script_config Strptime.strptime sample_clock
    ([source_one] ++ unreachable_source :: [source_two]) ∅ initial_shared
  = process_all script_config Strptime.strptime sample_clock
      ([source_one] ++ [source_two]) ∅ initial_shared.
Proof.
  apply (proj2 (failed_fetch_contributes_nothing script_config
                  Strptime.strptime sample_clock ∅ unreachable_source
                  (fun j _ => eq_refl))).
Defined.

(** ** An exception other than a syntax error *)

Lemma iterate_read_fault cfg strptime clock valid pre post st st' :
  iterate cfg strptime clock valid (map EndEvent pre) st = (Exhausted, st') ->
  iterate cfg strptime clock valid (map EndEvent pre ++ ReadFault :: post) st
  = (Propagated, st').
Proof. intros H. now rewrite (iterate_app _ _ _ _ _ _ _ _ H). Qed.

(** X8. When the stream raises an exception that is not a syntax error
    after the elements [pre] have been handled, the exception leaves
    [stream_parse_epg]: the sets, the totals and the output are as the loop
    over [pre] left them, but the filter counters of that source are lost,
    so the filtered statistics are what they were before the source,
    whereas a stream that ends cleanly after [pre] adds the counters to
    them; and [process_epg_source] goes on with the state the exception
    left. *)
Theorem read_fault_loses_the_filter_counters cfg strptime clock :
  forall valid pre post sh sh' c,
    iterate cfg strptime clock valid (map EndEvent pre) (sh, counters_zero)
    = (Exhausted, (sh', c)) ->
    stream_parse_epg cfg strptime clock
      (map EndEvent pre ++ ReadFault :: post) valid sh
    = Raised sh'
    /\ channels_filtered_by_tvg_id (run_stats sh')
       = channels_filtered_by_tvg_id (run_stats sh)
    /\ programmes_filtered_total (run_stats sh')
       = programmes_filtered_total (run_stats sh)
    /\ exists after,
         stream_parse_epg cfg strptime clock (map EndEvent pre) valid sh
         = Returned after
         /\ channels_filtered_by_tvg_id (run_stats after)
            = (channels_filtered_by_tvg_id (run_stats sh)
               + channels_filtered c)%nat
         /\ programmes_filtered_total (run_stats after)
            = (programmes_filtered_total (run_stats sh)
               + filtered_locally c)%nat.
Proof.
  intros valid pre post sh sh' c E. unfold stream_parse_epg.
  rewrite (iterate_read_fault _ _ _ _ _ post _ _ E), E.
  destruct (iterate_filter_stats_kept cfg strptime clock valid
              (map EndEvent pre) (sh, counters_zero))
    as (F1 & F2 & F3 & F4 & F5).
  rewrite E in F1, F2, F3, F4, F5. simpl in F1, F2, F3, F4, F5.
  unfold programmes_filtered_total, filtered_locally.
  split; [reflexivity|]. split; [exact F1|].
  split; [now rewrite F2, F3, F4, F5|].
  eexists. split; [reflexivity|]. simpl.
  rewrite F1, F2, F3, F4, F5. split; lia.
Qed.

(** A programme outside the allow-list, then a truncated stream. *)
Lemma read_fault_loses_the_filter_counters_witness :
  let p := elem_programme "x" "20240101100000" "20240101110000" in
  exists sh',
    stream_parse_epg script_config Strptime.strptime sample_clock
      (map EndEvent [p] ++ ReadFault :: []) {[ "one" ]} initial_shared
    = Raised sh'
    /\ programmes_filtered_total (run_stats sh') = 0%nat.
Proof.
  intros p.
  eexists. 
  refine (let H := read_fault_loses_the_filter_counters script_config
                     Strptime.strptime sample_clock {[ "one" ]} [p] []
                     initial_shared _ _ _ in
          conj (proj1 H) (proj1 (proj2 (proj2 H)))).
  vm_compute. reflexivity.
Defined.

(** A programme outside the allow-list, then a truncated stream: it is
    counted in the total and nowhere else. *)
Example read_fault_sample :
  let sh := filter_and_build_epg script_config Strptime.strptime sample_clock
              [plain_source
                 [EndEvent (elem_programme "x" "20240101100000"
                              "20240101110000");
                  ReadFault]] {[ "one" ]} in
  total_programmes_in_sources (run_stats sh) = 1%nat
  /\ programmes_filtered_total (run_stats sh) = 0%nat
  /\ written (output sh) = [].
Proof. vm_compute. auto. Qed.

(** ** Filters that are switched off *)

Lemma too_far_future_disabled strptime clock s n k :
  n <= 0 ->
  is_programme_too_far_future strptime clock s n k = (Value false, k).
Proof.
  intros Hn. unfold is_programme_too_far_future.
  destruct (n =? 0) eqn:E1; [reflexivity|].
  destruct (n <=? 0) eqn:E2; [reflexivity|].
  apply Z.leb_gt in E2. lia.
Qed.

Lemma too_far_past_disabled strptime clock s n k :
  n <= 0 ->
  is_programme_too_far_past strptime clock s n k = (Value false, k).
Proof.
  intros Hn. unfold is_programme_too_far_past.
  destruct (n =? 0) eqn:E1; [reflexivity|].
  destruct (n <=? 0) eqn:E2; [reflexivity|].
  apply Z.leb_gt in E2. lia.
Qed.

Lemma is_dummy_disabled cfg tvg_id :
  skip_dummy_programs cfg = false -> is_dummy_programme cfg tvg_id = false.
Proof. intros H. unfold is_dummy_programme. now rewrite H. Qed.

(** The three counters a switched-off filter leaves alone, and the clock it
    does not read. *)
Lemma on_end_event_disabled cfg strptime clock valid elem st :
  let st' := state_of (on_end_event cfg strptime clock valid elem st) in
  (days_future cfg <= 0 ->
   programmes_skipped_future (snd st') = programmes_skipped_future (snd st))
  /\ (days_past cfg <= 0 ->
      programmes_skipped_past (snd st') = programmes_skipped_past (snd st))
  /\ (skip_dummy_programs cfg = false ->
      programmes_skipped_dummy (snd st') = programmes_skipped_dummy (snd st))
  /\ (days_future cfg <= 0 -> days_past cfg <= 0 ->
      ticks (fst st') = ticks (fst st)).
Proof.
  destruct st as [sh c]. unfold on_end_event.
  destruct (String.eqb (tag elem) "channel").
  { unfold on_channel. case_filters; simpl; auto. }
  destruct (String.eqb (tag elem) "programme"); [|simpl; auto].
  unfold on_programme.
  destruct (not_in_valid _ _); [simpl; auto|].
  destruct (is_dummy_programme cfg (get elem "channel")) eqn:Hd.
  { simpl. split; [auto|]. split; [auto|]. split; [|auto].
    intros Hs. rewrite (is_dummy_disabled _ _ Hs) in Hd. discriminate Hd. }
  cbn [ticks with_stats].
  destruct (is_programme_too_far_future strptime clock (get elem "start")
              (days_future cfg) (ticks sh)) as [f k1] eqn:Ef.
  assert (Hf : days_future cfg <= 0 -> f = Value false /\ k1 = ticks sh).
  { intros H. rewrite too_far_future_disabled in Ef by exact H.
    injection Ef as <- <-. auto. }
  destruct f as [[]|].
  { simpl. split; [intros H; destruct (Hf H); discriminate|].
    split; [auto|]. split; [auto|].
    intros H; destruct (Hf H); discriminate. }
  2: { simpl. split; [auto|]. split; [auto|]. split; [auto|].
       intros H; destruct (Hf H); discriminate. }
  cbn [ticks with_ticks].
  destruct (is_programme_too_far_past strptime clock (get elem "stop")
              (days_past cfg) k1) as [p k2] eqn:Ep.
  assert (Hp : days_past cfg <= 0 -> p = Value false /\ k2 = k1).
  { intros H. rewrite too_far_past_disabled in Ep by exact H.
    injection Ep as <- <-. auto. }
  destruct p as [[]|].
  { simpl. split; [auto|].
    split; [intros H; destruct (Hp H); discriminate|].
    split; [auto|].
    intros _ H; destruct (Hp H); discriminate. }
  2: { simpl. split; [auto|]. split; [auto|]. split; [auto|].
       intros _ H; destruct (Hp H); discriminate. }
  assert (Ht : days_future cfg <= 0 -> days_past cfg <= 0 -> k2 = ticks sh).
  { intros H1 H2. destruct (Hf H1) as [_ <-]. now destruct (Hp H2). }
  destruct (bool_decide _); simpl; auto.
Qed.

Lemma statistic_stays_zero cfg strptime clock valid
    (fs : stats -> nat) (fc : counters -> nat) :
  (forall elem st,
      fs (run_stats
            (fst (state_of (on_end_event cfg strptime clock valid elem st))))
      = fs (run_stats (fst st))) ->
  (forall elem st,
      fc (snd (state_of (on_end_event cfg strptime clock valid elem st)))
      = fc (snd st)) ->
  (forall s c, fs (add_counters s c) = (fs s + fc c)%nat) ->
  fc counters_zero = 0%nat ->
  forall srcs sh,
    fs (run_stats sh) = 0%nat ->
    fs (run_stats (process_all cfg strptime clock srcs valid sh)) = 0%nat.
Proof.
  intros Hs Hc Hadd Hzero.
  apply (process_all_preserves cfg strptime clock valid
           (fun sh => fs (run_stats sh) = 0%nat)
           (fun st => fs (run_stats (fst st)) = 0%nat
                      /\ fc (snd st) = 0%nat)).
  - intros sh H. simpl. auto.
  - intros elem st [H1 H2]. now rewrite Hs, Hc.
  - intros sh c [H1 H2]. simpl in *. split; [exact H1|].
    rewrite Hadd, H1, H2. reflexivity.
Qed.

(** X9. A filter that is switched off counts nothing in a whole run: with
    a future window of 0 or less [programmes_filtered_by_future] ends at 0,
    with a past window of 0 or less [programmes_filtered_by_past] ends at 0,
    and with dummy suppression off [programmes_filtered_by_dummy] ends at 0;
    with both windows off the clock is never read. *)
Theorem disabled_filters_count_nothing cfg strptime clock srcs valid :
  let sh := filter_and_build_epg cfg strptime clock srcs valid in
  (days_future cfg <= 0 ->
   programmes_filtered_by_future (run_stats sh) = 0%nat)
  /\ (days_past cfg <= 0 ->
      programmes_filtered_by_past (run_stats sh) = 0%nat)
  /\ (skip_dummy_programs cfg = false ->
      programmes_filtered_by_dummy (run_stats sh) = 0%nat)
  /\ (days_future cfg <= 0 -> days_past cfg <= 0 -> ticks sh = 0%nat).
Proof.
  unfold filter_and_build_epg, write_xml_footer.
  cbn [write run_stats ticks].
  split; [|split; [|split]].
  - intros H.
    apply (statistic_stays_zero cfg strptime clock valid
             programmes_filtered_by_future programmes_skipped_future);
      auto.
    + intros elem st.
      now destruct (on_end_event_stats cfg strptime clock valid elem st)
        as (_ & _ & _ & _ & F & _).
    + intros elem st.
      now apply (on_end_event_disabled cfg strptime clock valid elem st).
  - intros H.
    apply (statistic_stays_zero cfg strptime clock valid
             programmes_filtered_by_past programmes_skipped_past);
      auto.
    + intros elem st.
      now destruct (on_end_event_stats cfg strptime clock valid elem st)
        as (_ & _ & _ & _ & _ & F & _).
    + intros elem st.
      now apply (on_end_event_disabled cfg strptime clock valid elem st).
  - intros H.
    apply (statistic_stays_zero cfg strptime clock valid
             programmes_filtered_by_dummy programmes_skipped_dummy);
      auto.
    + intros elem st.
      now destruct (on_end_event_stats cfg strptime clock valid elem st)
        as (_ & _ & _ & _ & _ & _ & F).
    + intros elem st.
      now apply (on_end_event_disabled cfg strptime clock valid elem st).
  - intros H1 H2.
    apply (process_all_preserves_shared cfg strptime clock valid
             (fun sh => ticks sh = 0%nat)); auto.
    intros elem sh c Ht.
    destruct (on_end_event_disabled cfg strptime clock valid elem (sh, c))
      as (_ & _ & _ & E). rewrite (E H1 H2). exact Ht.
Qed.

Lemma disabled_filters_count_nothing_witness :
  let sh := filter_and_build_epg script_config Strptime.strptime sample_clock
              [source_one; source_two] ∅ in
  programmes_filtered_by_future (run_stats sh) = 0%nat
  /\ programmes_filtered_by_dummy (run_stats sh) = 0%nat.
Proof.
  pose proof (disabled_filters_count_nothing script_config Strptime.strptime
                sample_clock [source_one; source_two] ∅) as (Hf & _ & Hd & _).
  split; [apply Hf; simpl; lia | apply Hd; reflexivity].
Defined.

(** ** The programme key when the attributes hold no underscore *)

Lemma split_at_underscore a a' t t' :
  no_underscore a = true -> no_underscore a' = true ->
  a +:+ "_" +:+ t = a' +:+ "_" +:+ t' -> a = a' /\ t = t'.
Proof.
  revert a'. induction a as [|c a IH]; intros [|c' a'] Ha Ha' E;
    simpl in Ha, Ha', E.
  - injection E as ->. auto.
  - injection E as <- _. discriminate Ha'.
  - injection E as -> _. discriminate Ha.
  - injection E as -> E.
    apply andb_true_iff in Ha as [_ Ha], Ha' as [_ Ha'].
    destruct (IH a' Ha Ha' E) as [-> ->]. auto.
Qed.

(** X10. Two programmes whose channel and start attributes are present and
    hold no underscore have the same key only if they have the same
    channel, start and stop text: for such programmes the deduplication
    never takes two different ones for one. *)
Theorem prog_key_injective_without_underscore a b c a' b' c' :
  no_underscore a = true -> no_underscore b = true ->
  no_underscore a' = true -> no_underscore b' = true ->
  prog_key (Some a) (Some b) c = prog_key (Some a') (Some b') c' ->
  a = a' /\ b = b' /\ Str.format c = Str.format c'.
Proof.
  intros Ha Hb Ha' Hb' E. unfold prog_key in E. simpl Str.format in E.
  apply split_at_underscore in E as [-> E]; auto.
  apply split_at_underscore in E as [-> E]; auto.
Qed.

Lemma prog_key_injective_without_underscore_witness :
  "bbc.one" = "bbc.one" /\ "20240101100000" = "20240101100000"
  /\ Str.format (Some "20240101110000") = Str.format (Some "20240101110000").
Proof.
  apply (prog_key_injective_without_underscore
           "bbc.one" "20240101100000" (Some "20240101110000")
           "bbc.one" "20240101100000" (Some "20240101110000"));
    reflexivity.
Defined.

(** ** The allow-list resolver *)

Lemma get_valid_tvg_ids_fold cfg iter_lines playlists acc x :
  x ∈ fold_left
        (fun valid playlist =>
           extract_tvg_ids_from_playlist cfg iter_lines playlist ∪ valid)
        playlists acc
  <-> x ∈ acc
      \/ exists p, In p playlists
                   /\ x ∈ extract_tvg_ids_from_playlist cfg iter_lines p.
Proof.
  revert acc. induction playlists as [|p ps IH]; intros acc; simpl.
  - split; [auto | intros [H | (p & [] & _)]; exact H].
  - rewrite IH, elem_of_union. split.
    + intros [[H | H] | (q & Hq & H)]; eauto.
    + intros [H | (q & [<- | Hq] & H)]; eauto.
Qed.

(** X11. The allow-list is the union of the identifiers of the file and of
    the identifiers extracted from every playlist, whatever their order: an
    identifier is in it exactly when the file was read and holds it, or some
    playlist yields it.  An absent or unreadable file and a playlist whose
    fetch fails contribute nothing; when every one of them does, the
    allow-list is empty and a run counts nothing as filtered by
    identifier. *)
Theorem allow_list_is_the_union cfg strptime clock iter_lines :
  (forall file playlists x,
      x ∈ get_valid_tvg_ids cfg iter_lines file playlists
      <-> (exists lines, file = FileLines lines /\ x ∈ file_ids lines)
          \/ exists p, In p playlists
                       /\ x ∈ extract_tvg_ids_from_playlist cfg iter_lines p)
  /\ (forall p,
        fst (fetch_with_retry cfg (network p)) = None ->
        extract_tvg_ids_from_playlist cfg iter_lines p = ∅)
  /\ (forall file playlists epg_urls,
        (forall lines, file <> FileLines lines) ->
        (forall p, In p playlists ->
                   fst (fetch_with_retry cfg (network p)) = None) ->
        let sh := filter_and_build_epg_resolving cfg strptime clock
                    iter_lines file epg_urls playlists in
        get_valid_tvg_ids cfg iter_lines file playlists = ∅
        /\ channels_filtered_by_tvg_id (run_stats sh) = 0%nat
        /\ programmes_filtered_by_tvg_id (run_stats sh) = 0%nat).
Proof.
  assert (Hmem : forall file playlists x,
      x ∈ get_valid_tvg_ids cfg iter_lines file playlists
      <-> (exists lines, file = FileLines lines /\ x ∈ file_ids lines)
          \/ exists p, In p playlists
                       /\ x ∈ extract_tvg_ids_from_playlist cfg iter_lines p).
  { intros file playlists x. unfold get_valid_tvg_ids.
    rewrite get_valid_tvg_ids_fold. split.
    - intros [H | H]; [left | now right].
      destruct file as [|lines|]; try (now apply not_elem_of_empty in H).
      exists lines. split; [reflexivity|].
      apply elem_of_union in H as [H | H]; [exact H|].
      now apply not_elem_of_empty in H.
    - intros [(lines & -> & H) | H]; [left | now right].
      apply elem_of_union. now left. }
  assert (Hfail : forall p,
      fst (fetch_with_retry cfg (network p)) = None ->
      extract_tvg_ids_from_playlist cfg iter_lines p = ∅).
  { intros p H. unfold extract_tvg_ids_from_playlist. now rewrite H. }
  split; [exact Hmem|]. split; [exact Hfail|].
  intros file playlists epg_urls Hfile Hps sh.
  assert (E : get_valid_tvg_ids cfg iter_lines file playlists = ∅).
  { apply set_eq. intros x. rewrite Hmem. split.
    - intros [(lines & Hl & _) | (p & Hp & Hx)].
      + now destruct (Hfile lines).
      + now rewrite (Hfail p (Hps p Hp)) in Hx.
    - intros H. now apply not_elem_of_empty in H. }
  split; [exact E|].
  subst sh. unfold filter_and_build_epg_resolving. rewrite E.
  unfold filter_and_build_epg, write_xml_footer. cbn [write run_stats].
  split.
  - apply (statistic_stays_zero cfg strptime clock ∅
             channels_filtered_by_tvg_id channels_filtered); auto.
    + intros elem st.
      now destruct (on_end_event_empty_allow_list cfg strptime clock elem st)
        as (_ & _ & F & _).
    + intros elem st.
      now destruct (on_end_event_empty_allow_list cfg strptime clock elem st)
        as (F & _).
  - apply (statistic_stays_zero cfg strptime clock ∅
             programmes_filtered_by_tvg_id programmes_filtered_tvg); auto.
    + intros elem st.
      now destruct (on_end_event_empty_allow_list cfg strptime clock elem st)
        as (_ & _ & _ & F).
    + intros elem st.
      now destruct (on_end_event_empty_allow_list cfg strptime clock elem st)
        as (_ & F & _).
Qed.

Lemma allow_list_is_the_union_witness :
  let sh := filter_and_build_epg_resolving script_config Strptime.strptime
              sample_clock (fun _ => []) FileAbsent [source_one]
              [unreachable_source] in
  get_valid_tvg_ids script_config (fun _ => []) FileAbsent
    [unreachable_source] = ∅
  /\ channels_filtered_by_tvg_id (run_stats sh) = 0%nat
  /\ programmes_filtered_by_tvg_id (run_stats sh) = 0%nat.
Proof.
  apply (proj2 (proj2 (allow_list_is_the_union script_config
                         Strptime.strptime sample_clock (fun _ => [])))).
  - intros lines. discriminate.
  - intros p [<- | []]. reflexivity.
Defined.

(** *** The identifiers the resolver yields *)

Lemma str_length_app a b :
  String.length (a +:+ b) = (String.length a + String.length b)%nat.
Proof. induction a as [|c a IH]; simpl; [reflexivity | now rewrite IH]. Qed.

Lemma re_match_many_unfold p r s :
  Re.match_here (Re.Many p :: r) s
  = match s with
    | String c s' =>
        if p c then
          match Re.match_here (Re.Many p :: r) s' with
          | Some rest => Some rest
          | None => Re.match_here r s
          end
        else Re.match_here r s
    | EmptyString => Re.match_here r s
    end.
Proof. destruct s; reflexivity. Qed.

Lemma match_many_only p s s2 :
  Re.match_here [Re.Many p] s = Some s2 ->
  exists g, s = g +:+ s2 /\ Str.all p g = true.
Proof.
  revert s2. induction s as [|c s IH]; intros s2;
    rewrite re_match_many_unfold.
  - simpl. intros [= <-]. now exists EmptyString.
  - destruct (p c) eqn:Hc.
    + destruct (Re.match_here [Re.Many p] s) as [r|] eqn:E.
      * intros [= <-]. destruct (IH r eq_refl) as (g & -> & Hg).
        exists (String c g). simpl. now rewrite Hc, Hg.
      * simpl. intros [= <-]. now exists EmptyString.
    + simpl. intros [= <-]. now exists EmptyString.
Qed.

Lemma match_group s1 s2 :
  Re.match_here tvg_id_group s1 = Some s2 ->
  exists g, s1 = g +:+ s2 /\ g <> EmptyString
            /\ Str.all not_quote g = true.
Proof.
  unfold tvg_id_group.
  destruct s1 as [|c s]; [discriminate|].
  change (Re.match_here [Re.Any not_quote; Re.Many not_quote] (String c s))
    with (if not_quote c then Re.match_here [Re.Many not_quote] s else None).
  destruct (not_quote c) eqn:Hc; [|discriminate].
  intros H. apply match_many_only in H as (g & -> & Hg).
  exists (String c g). simpl. rewrite Hc, Hg. repeat split. discriminate.
Qed.

Lemma slice_to_app g t : Str.slice_to (String.length g) (g +:+ t) = g.
Proof. induction g as [|c g IH]; simpl; [now destruct t | now rewrite IH]. Qed.

Lemma consumed_app g t : consumed (g +:+ t) t = g.
Proof.
  unfold consumed. rewrite str_length_app.
  replace (String.length g + String.length t - String.length t)%nat
    with (String.length g) by lia.
  apply slice_to_app.
Qed.

Lemma match_tvg_id_group s g rest :
  match_tvg_id s = Some (g, rest) ->
  g <> EmptyString /\ Str.all not_quote g = true.
Proof.
  unfold match_tvg_id.
  destruct (Re.match_here tvg_id_key s) as [s1|]; [|discriminate].
  destruct (Re.match_here tvg_id_group s1) as [s2|] eqn:E; [|discriminate].
  destruct (Re.match_here [Re.Lit dquote] s2) as [s3|]; [|discriminate].
  intros [= <- <-]. apply match_group in E as (g & -> & Hne & Hq).
  now rewrite consumed_app.
Qed.

Lemma findall_tvg_id_from_groups k s :
  Forall (fun g => g <> EmptyString /\ Str.all not_quote g = true)
         (findall_tvg_id_from k s).
Proof.
  revert k. induction s as [|c s IH]; intros k; simpl; [constructor|].
  destruct k as [|k]; [|apply IH].
  destruct (match_tvg_id (String c s)) as [[g rest]|] eqn:E; [|apply IH].
  constructor; [|apply IH]. eapply match_tvg_id_group, E.
Qed.

Lemma scan_lines_groups items acc x :
  x ∈ scan_lines items acc ->
  x ∈ acc \/ (x <> EmptyString /\ Str.all not_quote x = true).
Proof.
  revert acc. induction items as [|[line|] items IH]; intros acc; simpl; auto.
  intros H. apply IH in H as [H | H]; [|now right].
  destruct (Str.truthy line); [|now left].
  apply elem_of_union in H as [H | H]; [right | now left].
  apply elem_of_list_to_set, list_elem_of_In in H.
  pose proof (findall_tvg_id_from_groups 0 line) as F.
  rewrite List.Forall_forall in F. now apply F.
Qed.

Lemma lstrip_length s : (String.length (lstrip s) <= String.length s)%nat.
Proof.
  induction s as [|c s IH]; simpl; [lia|].
  destruct (Re.space c); simpl; lia.
Qed.

Lemma lstrip_idempotent s : lstrip (lstrip s) = lstrip s.
Proof.
  induction s as [|c s IH]; simpl; [reflexivity|].
  destruct (Re.space c) eqn:Hc; [exact IH|]. simpl. now rewrite Hc.
Qed.

Lemma rstrip_idempotent s : rstrip (rstrip s) = rstrip s.
Proof.
  induction s as [|c s IH]; simpl; [reflexivity|].
  destruct (rstrip s) as [|d r] eqn:E.
  - destruct (Re.space c) eqn:Hc; simpl; [reflexivity | now rewrite Hc].
  - change (rstrip (String c (String d r)))
      with (match rstrip (String d r) with
            | EmptyString =>
                if Re.space c then EmptyString else String c EmptyString
            | r' => String c r'
            end).
    now rewrite IH.
Qed.

Lemma lstrip_rstrip s : lstrip s = s -> lstrip (rstrip s) = rstrip s.
Proof.
  destruct s as [|c s]; [reflexivity|]. simpl.
  destruct (Re.space c) eqn:Hc.
  - intros H. pose proof (lstrip_length s) as L. rewrite H in L.
    simpl in L. lia.
  - intros _. destruct (rstrip s); simpl; now rewrite Hc.
Qed.

Lemma strip_no_outer_space s :
  lstrip (strip s) = strip s /\ rstrip (strip s) = strip s.
Proof.
  unfold strip. split.
  - apply lstrip_rstrip, lstrip_idempotent.
  - apply rstrip_idempotent.
Qed.

Lemma file_ids_spec lines x :
  x ∈ file_ids lines
  <-> exists line, In line lines /\ x = strip line /\ x <> EmptyString.
Proof.
  unfold file_ids.
  rewrite elem_of_list_to_set, list_elem_of_In, in_map_iff. split.
  - intros (line & <- & H). apply List.filter_In in H as [Hin Ht].
    exists line. repeat split; auto. intros E. now rewrite E in Ht.
  - intros (line & Hin & -> & Hne). exists line. split; [reflexivity|].
    apply List.filter_In. split; [exact Hin|].
    destruct (strip line); [congruence | reflexivity].
Qed.

(** X12. An identifier that comes from the file is a line of the file
    without its white space at either end, and is not empty.  An identifier
    that comes from a playlist is not empty and holds no double quote.
    Every identifier of the resolved allow-list comes from the file or from
    one of the playlists, so it is never the empty string. *)
Theorem allow_list_ids_well_formed cfg iter_lines :
  (forall lines x,
      x ∈ file_ids lines ->
      x <> EmptyString /\ lstrip x = x /\ rstrip x = x
      /\ exists line, In line lines /\ x = strip line)
  /\ (forall p x,
        x ∈ extract_tvg_ids_from_playlist cfg iter_lines p ->
        x <> EmptyString /\ Str.all not_quote x = true)
  /\ (forall file playlists x,
        x ∈ get_valid_tvg_ids cfg iter_lines file playlists ->
        x <> EmptyString
        /\ ((exists lines, file = FileLines lines /\ x ∈ file_ids lines)
            \/ (exists p,
                  In p playlists
                  /\ x ∈ extract_tvg_ids_from_playlist cfg iter_lines p))).
Proof.
  assert (Hfile : forall lines x,
             x ∈ file_ids lines ->
             x <> EmptyString /\ lstrip x = x /\ rstrip x = x
             /\ exists line, In line lines /\ x = strip line).
  { intros lines x H. apply file_ids_spec in H as (line & Hin & -> & Hne).
    split; [exact Hne|].
    destruct (strip_no_outer_space line) as [H1 H2].
    split; [exact H1|]. split; [exact H2|]. now exists line. }
  assert (Hplay : forall p x,
             x ∈ extract_tvg_ids_from_playlist cfg iter_lines p ->
             x <> EmptyString /\ Str.all not_quote x = true).
  { intros p x H. unfold extract_tvg_ids_from_playlist in H.
    destruct (fst (fetch_with_retry cfg (network p)));
      [|now apply not_elem_of_empty in H].
    apply scan_lines_groups in H as [H | H];
      [now apply not_elem_of_empty in H | exact H]. }
  split; [exact Hfile|]. split; [exact Hplay|].
  intros file playlists x H. unfold get_valid_tvg_ids in H.
  rewrite get_valid_tvg_ids_fold in H. destruct H as [H | (p & Hp & H)].
  - destruct file as [|lines|]; try (now apply not_elem_of_empty in H).
    apply elem_of_union in H as [H | H];
      [|now apply not_elem_of_empty in H].
    split; [apply (Hfile lines x H)|]. left. now exists lines.
  - split; [apply (Hplay p x H)|]. right. now exists p.
Qed.

(** The identifier of a file line with a blank at either end. *)
Lemma allow_list_ids_well_formed_witness :
  "itv.one" <> EmptyString /\ lstrip "itv.one" = "itv.one"
  /\ rstrip "itv.one" = "itv.one"
  /\ exists line,
       In line [" itv.one " +:+ nl] /\ "itv.one" = strip line.
Proof.
  assert (H : "itv.one" ∈ file_ids [" itv.one " +:+ nl]).
  { apply (bool_decide_unpack _). vm_compute. exact I. }
  exact (proj1 (allow_list_ids_well_formed script_config one_line) _ _ H).
Defined.

Example resolver_sample :
  let valid := get_valid_tvg_ids script_config one_line
                 (FileLines [" itv.one " +:+ nl; nl])
                 [one_line_playlist; unreachable_source] in
  bool_decide ("itv.one" ∈ valid) = true
  /\ bool_decide ("bbc.one" ∈ valid) = true
  /\ size valid = 2%nat.
Proof. vm_compute. auto. Qed.
